(** * avsplit: splitting one recording into tagged tracks

    A shallow embedding of [main.go]: the timecode parser, the track
    segmenter, the naming and argument derivation, and the orchestration
    of the two external tools, followed by the properties proved of them.

    Go strings are byte sequences and are modelled as [string]; Go [int]
    values are modelled as [Z] (every integer of the program is a slice
    length or an index plus one, far below the 64-bit bound). *)

From Stdlib Require Import ZArith Ascii String Lia.
From stdpp Require Import base list strings.

Local Open Scope Z_scope.

(** ** Bytes and string helpers *)

(** The one-byte string holding the double-quote character (code 34). *)
Definition dquote : string := String "034"%char EmptyString.

(** The horizontal tab (code 9), as a one-byte string. *)
Definition tab : string := String "009"%char EmptyString.

Definition isEmpty (s : string) : bool :=
  match s with
  | EmptyString => true
  | String _ _ => false
  end.

Fixpoint byteIn (c : ascii) (cutset : string) : bool :=
  match cutset with
  | EmptyString => false
  | String d r => Ascii.eqb c d || byteIn c r
  end.

(** [strings.TrimLeft], [strings.TrimRight] and [strings.Trim] for a cutset
    of ASCII bytes: every leading (trailing) byte that occurs in the cutset
    is removed. *)
Fixpoint TrimLeft (s cutset : string) : string :=
  match s with
  | EmptyString => EmptyString
  | String c r => if byteIn c cutset then TrimLeft r cutset else s
  end.

Fixpoint TrimRight (s cutset : string) : string :=
  match s with
  | EmptyString => EmptyString
  | String c r =>
      match TrimRight r cutset with
      | EmptyString => if byteIn c cutset then EmptyString else String c EmptyString
      | r' => String c r'
      end
  end.

Definition Trim (s cutset : string) : string :=
  TrimLeft (TrimRight s cutset) cutset.

(** [cutAfter sep s] is the slicing done by one round of [strings.genSplit]
    with [sepSave = len(sep)]: the part of [s] up to and including the first
    [sep], and the rest; [None] when [strings.Index] finds no [sep]. *)
Fixpoint cutAfter (sep : ascii) (s : string) : option (string * string) :=
  match s with
  | EmptyString => None
  | String c r =>
      if Ascii.eqb c sep then Some (String c EmptyString, r)
      else match cutAfter sep r with
           | Some (a, b) => Some (String c a, b)
           | None => None
           end
  end.

(** [strings.SplitAfterN(s, sep, n)] for a one-byte separator and [n >= 0]:
    at most [n] pieces, each but the last ending with the separator, the
    last one being the unsplit remainder. *)
Fixpoint SplitAfterN (s : string) (sep : ascii) (n : nat) : list string :=
  match n with
  | O => []
  | S O => [s]
  | S n' =>
      match cutAfter sep s with
      | Some (a, b) => a :: SplitAfterN b sep n'
      | None => [s]
      end
  end.

(** ** Decimal formatting ([fmt]) *)

Definition isDigit (c : ascii) : bool :=
  (48 <=? nat_of_ascii c)%nat && (nat_of_ascii c <=? 57)%nat.

Definition digitVal (c : ascii) : Z := Z.of_nat (nat_of_ascii c) - 48.

Definition digitChar (d : Z) : ascii := ascii_of_nat (Z.to_nat (48 + d)).

(** The digit loop of [fmt.fmtInteger]: least significant digit first,
    written in front of what is already there. *)
Fixpoint fmtDigits (fuel : nat) (u : Z) (acc : string) : string :=
  match fuel with
  | O => acc
  | S fuel' =>
      if u <? 10 then String (digitChar u) acc
      else fmtDigits fuel' (u / 10) (String (digitChar (u mod 10)) acc)
  end.

Definition fmtUint (u : Z) : string :=
  fmtDigits (S (Z.to_nat (Z.log2 u))) u EmptyString.

Fixpoint zeros (n : nat) : string :=
  match n with
  | O => EmptyString
  | S n' => String "0"%char (zeros n')
  end.

Definition zeroPad (prec : nat) (digits : string) : string :=
  zeros (prec - String.length digits) +:+ digits.

(** [%0<width>d] (and [%d], [%v] with [width = 0]) on an integer: the
    digits are padded with zeros up to the width, one less when a sign is
    written. *)
Definition fmtInteger (n : Z) (width : nat) : string :=
  if n <? 0 then String "-"%char (zeroPad (width - 1) (fmtUint (Z.abs n)))
  else zeroPad width (fmtUint n).

(** Operands of [fmt.Sprintf]: the program formats strings and ints only. *)
Inductive operand :=
| OpString (s : string)
| OpInt (n : Z).

Definition fmtOperand (o : option operand) (width : nat) : string :=
  match o with
  | Some (OpString s) => s
  | Some (OpInt n) => fmtInteger n width
  | None => "%!v(MISSING)"
  end.

(** [fmt.Sprintf] on the verbs the program uses: [%v] and [%d] without
    flags, and [%0Wd] with a one-digit width [W] (for the integers printed
    that way); every other byte of the format is copied.  Operands are
    consumed from left to right.  Every call of the program supplies as
    many operands as verbs. *)
Fixpoint Sprintf (format : string) (a : list operand) : string :=
  match format with
  | EmptyString => EmptyString
  | String "%" (String "v" r) => fmtOperand (head a) 0 +:+ Sprintf r (tail a)
  | String "%" (String "d" r) => fmtOperand (head a) 0 +:+ Sprintf r (tail a)
  | String "%" (String "0" (String w (String "d" r))) =>
      if isDigit w
      then fmtOperand (head a) (Z.to_nat (digitVal w)) +:+ Sprintf r (tail a)
      else String "%" (String "0" (String w (String "d" (Sprintf r a))))
  | String c r => String c (Sprintf r a)
  end.

(** ** Paths ([path/filepath] and [path], Unix separator) *)

(** The scan of [filepath.Ext]: from the last byte backwards, stopping at a
    separator (no extension) or at a dot (the extension starts there).
    [rpath] is the part of the path still to scan, reversed; [suffix] is the
    part already passed. *)
Fixpoint extScan (rpath : list ascii) (suffix : string) : string :=
  match rpath with
  | [] => EmptyString
  | c :: more =>
      if Ascii.eqb c "/" then EmptyString
      else if Ascii.eqb c "." then String c suffix
      else extScan more (String c suffix)
  end.

Definition filepath_Ext (p : string) : string :=
  extScan (rev (list_ascii_of_string p)) EmptyString.

(** Splitting at every slash; [cur] is the element being read, reversed. *)
Fixpoint elementsFrom (cur : list ascii) (s : string) : list string :=
  match s with
  | EmptyString => [string_of_list_ascii (rev cur)]
  | String c r =>
      if Ascii.eqb c "/" then string_of_list_ascii (rev cur) :: elementsFrom [] r
      else elementsFrom (c :: cur) r
  end.

Definition elements (s : string) : list string := elementsFrom [] s.

Definition isRooted (p : string) : bool :=
  match p with
  | String "/" _ => true
  | _ => false
  end.

(** One round of the loop of [path.Clean], on a whole path element instead
    of byte by byte.  [out] is the stack of elements written so far, the
    last one first.  An empty element or [.] is dropped; [..] removes the
    last element when there is one to remove ([out.w > dotdot]: the stack is
    not empty and its top is not a kept [..]), is kept when the path is not
    rooted, and is dropped at the root; any other element is written. *)
Definition cleanStep (rooted : bool) (out : list string) (e : string) : list string :=
  if isEmpty e || String.eqb e "." then out
  else if String.eqb e ".." then
    match out with
    | top :: below => if String.eqb top ".." then e :: out else below
    | [] => if rooted then out else [e]
    end
  else e :: out.

Fixpoint joinSlash (es : list string) : string :=
  match es with
  | [] => EmptyString
  | [e] => e
  | e :: more => e +:+ "/" +:+ joinSlash more
  end.

(** [path.Clean]. *)
Definition path_Clean (p : string) : string :=
  if isEmpty p then "."
  else
    let rooted := isRooted p in
    let out := fold_left (cleanStep rooted) (elements p) [] in
    let body := joinSlash (rev out) in
    if rooted then String "/" body
    else if isEmpty body then "." else body.

(** [path.Join]: the non-empty elements joined by slashes, then cleaned;
    the empty string when there is nothing to join. *)
Definition path_Join (elem : list string) : string :=
  match filter (λ e, isEmpty e = false) elem with
  | [] => EmptyString
  | es => path_Clean (joinSlash es)
  end.

(** ** Tracks *)

Record track := {
  Number : Z;
  Total : Z;
  Title : string;
  Start : string;
  End : string;
  Artist : string;
  Album : string
}.

Definition padFmt (t : track) : string :=
  if 99 <? Total t then "%03d - %v%v" else "%02d - %v%v".

Definition outputFilename (t : track) (audioFile : string) : string :=
  let v := Sprintf (padFmt t)
             [OpInt (Number t); OpString (Title t);
              OpString (filepath_Ext audioFile)] in
  path_Join [Artist t; Album t; v].

Definition ffmpegArgs (t : track) (audioFile : string) : list string :=
  let args := ["-nostdin"; "-y"; "-loglevel"; "error"] in
  let args :=
    if isEmpty (End t)
    then args ++ ["-ss"; Start t]
    else args ++ ["-ss"; Start t; "-to"; End t] in
  args ++ ["-i"; Sprintf "%v" [OpString audioFile];
           "-vn"; "-c"; "copy"; "-f"; "mp3";
           outputFilename t audioFile].

Definition quotedFmt : string := "%v=" +:+ dquote +:+ "%v" +:+ dquote.

Definition eyeD3Args (t : track) (audioFile : string) : list string :=
  [ Sprintf quotedFmt [OpString "--artist"; OpString (Artist t)];
    Sprintf quotedFmt [OpString "--album-artist"; OpString (Artist t)];
    Sprintf quotedFmt [OpString "--album"; OpString (Album t)];
    Sprintf quotedFmt [OpString "--title"; OpString (Title t)];
    Sprintf "%v=%v" [OpString "--track"; OpInt (Number t)];
    Sprintf "%v=%v" [OpString "--track-total"; OpInt (Total t)];
    outputFilename t audioFile ].

(** ** Time of day ([time.Parse] with layout [15:04:05]) *)

(** [time.getnum]: one or two leading digits; with [fixed], exactly two. *)
Definition getnum (s : string) (fixed : bool) : option (Z * string) :=
  match s with
  | String c0 r0 =>
      if isDigit c0 then
        match r0 with
        | String c1 r1 =>
            if isDigit c1 then Some (digitVal c0 * 10 + digitVal c1, r1)
            else if fixed then None else Some (digitVal c0, r0)
        | EmptyString => if fixed then None else Some (digitVal c0, r0)
        end
      else None
  | EmptyString => None
  end.

(** [time.skip] for the one-byte literal prefix [:] of the layout. *)
Definition skipColon (value : string) : option string :=
  match value with
  | String ":" r => Some r
  | _ => None
  end.

Definition commaOrPeriod (c : ascii) : bool :=
  Ascii.eqb c "." || Ascii.eqb c ",".

Fixpoint dropDigits (s : string) : string :=
  match s with
  | String c r => if isDigit c then dropDigits r else s
  | EmptyString => s
  end.

(** After the seconds the parser consumes a fractional second that the
    layout does not mention: a comma or period followed by at least one
    digit, with all the digits that follow (as the current Go releases do;
    any number of digits is taken). *)
Definition skipFraction (value : string) : string :=
  match value with
  | String c0 (String c1 r) =>
      if commaOrPeriod c0 && isDigit c1 then dropDigits r else value
  | _ => value
  end.

(** [time.Parse("15:04:05", value)]: the chunks of the layout are [15]
    (hour, one or two digits, below 24), [:], [04] (minute, two digits,
    below 60), [:], [05] (second, two digits, below 60, with the optional
    fraction); text left over is an error.  The result is the hour, minute
    and second, or [None] for an error. *)
Definition time_Parse (value : string) : option (Z * Z * Z) :=
  match getnum value false with
  | None => None
  | Some (hour, value) =>
      if 24 <=? hour then None else
      match skipColon value with
      | None => None
      | Some value =>
          match getnum value true with
          | None => None
          | Some (min, value) =>
              if 60 <=? min then None else
              match skipColon value with
              | None => None
              | Some value =>
                  match getnum value true with
                  | None => None
                  | Some (sec, value) =>
                      if 60 <=? sec then None else
                      if isEmpty (skipFraction value)
                      then Some (hour, min, sec)
                      else None
                  end
              end
          end
      end
  end.

(** [parseTime] returns the error of [time.Parse]; [true] stands for the
    nil error. *)
Definition parseTime (t : string) : bool :=
  match time_Parse (Trim t " ") with
  | Some _ => true
  | None => false
  end.

(** ** Errors *)

(** The errors [run] can return, one constructor per place that makes one.
    [MkdirError] carries the error of [os.MkdirAll], [StartError] the one of
    [cmd.Start], [ExitError] the captured standard error of a tool that did
    not exit cleanly. *)
Inductive error :=
| AudioFileNotFound
| TimecodesFileNotFound
| CannotReadTimecodes
| InvalidFormat
| InvalidTimecode
| NoTimecodesFound
| TooManyTracks (n : Z)
| MkdirError (e : string)
| StartError (e : string)
| ExitError (stderr : string).

(** The text of the errors made with a fixed format. *)
Definition errorText (e : error) : option string :=
  match e with
  | AudioFileNotFound => Some "audio file not found"
  | TimecodesFileNotFound => Some "timecodes file not found"
  | CannotReadTimecodes => Some "cannot read timecodes file"
  | InvalidFormat => Some "invalid format"
  | InvalidTimecode => Some "invalid timecode"
  | NoTimecodesFound => Some "no timecodes found"
  | TooManyTracks n => Some (Sprintf "too many tracks: %d" [OpInt n])
  | MkdirError e => Some e
  | StartError e => Some e
  | ExitError _ => None
  end.

(** The errors raised before anything is written: input validation,
    reading and parsing. *)
Definition isInputError (e : error) : bool :=
  match e with
  | AudioFileNotFound | TimecodesFileNotFound | CannotReadTimecodes
  | InvalidFormat | InvalidTimecode | NoTimecodesFound | TooManyTracks _ => true
  | MkdirError _ | StartError _ | ExitError _ => false
  end.

(** ** The timecode parser (the scanning loop of [run]) *)

(** What one round of the loop does with the line [text]. *)
Inductive lineResult :=
| Skip
| Entry (tc : string * string)
| Fail (e : error).

(** The body of the scanning loop.  The two-element slice [tc] is kept as
    the pair of its elements, time first ([run] does not use the struct
    [timecode] that the source declares). *)
Definition scanLine (text : string) : lineResult :=
  if isEmpty text then Skip
  else
    match SplitAfterN text " " 2 with
    | tc0 :: tc1 :: _ =>
        if parseTime tc0
        then Entry (Trim tc0 " ", Trim tc1 " ")
        else Fail InvalidTimecode
    | _ => Fail InvalidFormat
    end.

Fixpoint scanLoop (lines : list string) (timecodes : list (string * string))
  : error + list (string * string) :=
  match lines with
  | [] => inr timecodes
  | text :: rest =>
      match scanLine text with
      | Skip => scanLoop rest timecodes
      | Entry tc => scanLoop rest (timecodes ++ [tc])
      | Fail e => inl e
      end
  end.

Definition len {A} (l : list A) : Z := Z.of_nat (length l).

(** The parser: the loop over the lines the scanner yields, then the two
    checks on the number of entries. *)
Definition readTimecodes (lines : list string) : error + list (string * string) :=
  match scanLoop lines [] with
  | inl e => inl e
  | inr timecodes =>
      if len timecodes =? 0 then inl NoTimecodesFound
      else if 999 <? len timecodes then inl (TooManyTracks (len timecodes))
      else inr timecodes
  end.

(** ** The scanner ([bufio.NewScanner], [s.Scan], [s.Text])

    [run] reads the file through a [bufio.Scanner] made by
    [bufio.NewScanner]: the split function is [bufio.ScanLines] and the
    buffer holds at most [MaxScanTokenSize] bytes.  [ScanLines data] is the
    list of the texts that the successive calls of [s.Scan()] deliver when
    reading the file gives the bytes [data]: the lines without their
    terminator, a carriage return before the newline dropped with it, and a
    last line without newline delivered when it is not empty.  When the
    buffer is full and holds no newline, that is when a line has reached
    [MaxScanTokenSize] bytes, [s.Scan()] returns false as it does at the end
    of the input and the loop of [run] ends there; the scanner keeps an
    error for that case, but [run] never calls [s.Err()].  In
    [scanLinesFrom], [cur] is the line being read, reversed, and [n] the
    number of its bytes. *)
Definition MaxScanTokenSize : Z := 64 * 1024.

Definition dropCR (rline : list ascii) : list ascii :=
  match rline with
  | c :: more => if Ascii.eqb c "013" then more else rline
  | [] => []
  end.

Fixpoint scanLinesFrom (cur : list ascii) (n : Z) (data : string) : list string :=
  match data with
  | EmptyString =>
      match cur with
      | [] => []
      | _ => [string_of_list_ascii (rev (dropCR cur))]
      end
  | String c r =>
      if Ascii.eqb c "010"
      then string_of_list_ascii (rev (dropCR cur)) :: scanLinesFrom [] 0 r
      else if MaxScanTokenSize <=? n + 1 then []
      else scanLinesFrom (c :: cur) (n + 1) r
  end.

Definition ScanLines (data : string) : list string := scanLinesFrom [] 0 data.

(** ** The track segmenter (the second loop of [run]) *)

Definition setEnd (e : string) (t : track) : track :=
  {| Number := Number t; Total := Total t; Title := Title t;
     Start := Start t; End := e; Artist := Artist t; Album := Album t |}.

(** One round of the loop over [i := range timecodes].  An index out of
    range makes the Go program panic: that is [None] here. *)
Definition segmentStep (timecodes : list (string * string)) (artist album : string)
    (tracks : list track) (i : nat) : option (list track) :=
  tc ← timecodes !! i;
  let t := {| Number := Z.of_nat i + 1; Title := tc.2; Start := tc.1;
              Artist := artist; Album := album; Total := len timecodes;
              End := EmptyString |} in
  let tracks := tracks ++ [t] in
  tracks ←
    (if Z.of_nat i =? 1 then
       _ ← tracks !! (i - 1)%nat;
       Some (alter (setEnd tc.1) (i - 1)%nat tracks)
     else Some tracks);
  if (0 <? Z.of_nat i) && (Z.of_nat i <? len timecodes - 1) then
    next ← timecodes !! (i + 1)%nat;
    _ ← tracks !! i;
    Some (alter (setEnd next.1) i tracks)
  else Some tracks.

Fixpoint segmentLoop (timecodes : list (string * string)) (artist album : string)
    (indices : list nat) (tracks : list track) : option (list track) :=
  match indices with
  | [] => Some tracks
  | i :: more =>
      tracks ← segmentStep timecodes artist album tracks i;
      segmentLoop timecodes artist album more tracks
  end.

Definition segment (timecodes : list (string * string)) (artist album : string)
  : option (list track) :=
  segmentLoop timecodes artist album (seq 0 (length timecodes)) [].

(** ** The operating system and the two external tools *)

(** How a child process ends: it could not be started, or it ran and
    exited, cleanly or not, having written [stderr]. *)
Inductive procResult :=
| StartFailed (e : string)
| Exited (ok : bool) (stderr : string).

(** What the program asks of the operating system.  [os_Stat] tells
    whether [os.Stat] returns a nil error; [os_Open] gives the bytes that
    reading the opened file yields, up to its end or to the first read
    error (the scanner ends the same way on both), or [None] when
    [os.Open] fails; [os_MkdirAll] gives the error of [os.MkdirAll], if any;
    [os_Command] starts a process with the given argument vector (no shell
    is involved) and waits for it. *)
Record OS (World : Type) := {
  os_Stat : World → string → bool;
  os_Open : World → string → option string;
  os_MkdirAll : World → string → World * option string;
  os_Command : World → string → list string → World * procResult
}.
Arguments os_Stat {World}.
Arguments os_Open {World}.
Arguments os_MkdirAll {World}.
Arguments os_Command {World}.

(** The calls made, in the order they are made, each with its outcome. *)
Inductive event :=
| EvStat (name : string) (ok : bool)
| EvOpen (name : string) (ok : bool)
| EvMkdirAll (dir : string) (err : option string)
| EvPrintf (text : string)
| EvCommand (c : string) (arg : list string) (r : procResult).

(** How a function returning [error] ends: with a value (the nil error),
    with an error, or in a panic. *)
Inductive result (A : Type) :=
| Ok (a : A)
| Err (e : error)
| Panic.
Arguments Ok {A}.
Arguments Err {A}.
Arguments Panic {A}.

Section Run.
Context {World : Type} (os : OS World).

(** The state threaded through [run]: the world and the log of calls. *)
Definition state : Type := World * list event.

Definition M (A : Type) : Type := state → state * result A.

#[global] Instance M_ret : MRet M := λ A a s, (s, Ok a).

#[global] Instance M_bind : MBind M := λ A B k m s,
  match m s with
  | (s', Ok a) => k a s'
  | (s', Err e) => (s', Err e)
  | (s', Panic) => (s', Panic)
  end.

Definition raise {A} (e : error) : M A := λ s, (s, Err e).

Definition panic {A} : M A := λ s, (s, Panic).

Definition stat (name : string) : M bool := λ s,
  let ok := os_Stat os s.1 name in
  ((s.1, s.2 ++ [EvStat name ok]), Ok ok).

Definition open (name : string) : M (option string) := λ s,
  let f := os_Open os s.1 name in
  ((s.1, s.2 ++ [EvOpen name (bool_decide (is_Some f))]), Ok f).

Definition mkdirAll (dir : string) : M (option string) := λ s,
  let '(w, err) := os_MkdirAll os s.1 dir in
  ((w, s.2 ++ [EvMkdirAll dir err]), Ok err).

Definition printf (text : string) : M unit := λ s,
  ((s.1, s.2 ++ [EvPrintf text]), Ok tt).

(** [execCommand]: the command and its arguments go to the process as
    they are; a process that cannot be started gives that error, one
    that exits uncleanly gives its standard error as the error. *)
Definition execCommand (c : string) (arg : list string) : M unit := λ s,
  let '(w, r) := os_Command os s.1 c arg in
  let s' := (w, s.2 ++ [EvCommand c arg r]) in
  match r with
  | StartFailed e => (s', Err (StartError e))
  | Exited false stderr => (s', Err (ExitError stderr))
  | Exited true _ => (s', Ok tt)
  end.

Definition progressFmt : string :=
  "processing track " +:+ dquote +:+ "%v" +:+ dquote +:+ String "010" EmptyString.

(** The last loop of [run]: for each track the progress line, the cut,
    then the tag. *)
Fixpoint processTracks (audioFile : string) (tracks : list track) : M unit :=
  match tracks with
  | [] => mret tt
  | t :: more =>
      _ ← printf (Sprintf progressFmt [OpString (outputFilename t audioFile)]);
      _ ← execCommand "ffmpeg" (ffmpegArgs t audioFile);
      _ ← execCommand "eyed3" (eyeD3Args t audioFile);
      processTracks audioFile more
  end.

(** [run].  The deferred [f.Close()] is not logged; the loop over the
    lines that the scanner delivers is [readTimecodes] on [ScanLines], the
    loop over the timecodes is [segment]. *)
Definition run (audioFile timecodesFile artist album : string) : M unit :=
  ok ← stat audioFile;
  if negb ok then raise AudioFileNotFound else
  ok ← stat timecodesFile;
  if negb ok then raise TimecodesFileNotFound else
  f ← open timecodesFile;
  match f with
  | None => raise CannotReadTimecodes
  | Some data =>
      match readTimecodes (ScanLines data) with
      | inl e => raise e
      | inr timecodes =>
          match segment timecodes artist album with
          | None => panic
          | Some tracks =>
              err ← mkdirAll (path_Join [artist; album]);
              match err with
              | Some e => raise (MkdirError e)
              | None => processTracks audioFile tracks
              end
          end
      end
  end.

End Run.

(** ** The entry point ([main]) *)

(** What [main] does besides what [run] does: it may print the usage. *)
Inductive mainEvent :=
| EvUsage
| EvRun (ev : event).

Section Main.
Context {World : Type} (os : OS World).

(** [Errorf format] stands for the text of [fmt.Errorf(format)] when the
    format is given no operand, as [execCommand] calls it on the standard
    error of a tool (verbs in that text are rendered by [fmt] as missing
    operands). *)
Variable Errorf : string → string.

(** The text of an error (its [Error()] method). *)
Definition errorString (e : error) : string :=
  match e with
  | ExitError stderr => Errorf stderr
  | _ => default EmptyString (errorText e)
  end.

Definition errorFmt : string := "error: %v" +:+ String "010" EmptyString.

(** [main], from the values of the four flags once [flag.Parse] has read
    them, to the world, the calls made and the exit status: 1 after
    [os.Exit(1)], 0 when [main] returns, 2 when the program panics. *)
Definition main (filename timecodes artist album : string) (w : World)
  : World * list mainEvent * Z :=
  if isEmpty filename || isEmpty timecodes || isEmpty artist || isEmpty album
  then (w, [EvUsage], 1)
  else
    match run os filename timecodes artist album (w, []) with
    | ((w', log), Ok _) => (w', EvRun <$> log, 0)
    | ((w', log), Err e) =>
        (w', (EvRun <$> log)
             ++ [EvRun (EvPrintf (Sprintf errorFmt [OpString (errorString e)]))],
         1)
    | ((w', log), Panic) => (w', EvRun <$> log, 2)
    end.

End Main.

(** ** A recording fake of the operating system *)

(** The world is the number of processes run so far.  Every file of
    [files] exists and is read as its content; directories are always
    created; the process number [failAt], if any, exits uncleanly, all
    others exit cleanly. *)
Fixpoint lookupFile (files : list (string * string)) (name : string) : option string :=
  match files with
  | [] => None
  | (n, data) :: more => if String.eqb n name then Some data else lookupFile more name
  end.

Definition fakeOS (files : list (string * string)) (failAt : option nat) : OS nat := {|
  os_Stat := λ _ name, bool_decide (is_Some (lookupFile files name));
  os_Open := λ _ name, lookupFile files name;
  os_MkdirAll := λ w _, (w, None);
  os_Command := λ w _ _,
    (S w, if bool_decide (failAt = Some w) then Exited false "boom" else Exited true EmptyString)
|}.

Definition newline : string := String "010" EmptyString.

Definition demoFiles : list (string * string) :=
  [("song.flac", "fLaC");
   ("times.txt", "00:00:00 Intro" +:+ newline +:+ "00:03:15 Track Two" +:+ newline)].

(** * The vocabulary of the statements *)

(** ** The tracks after some rounds of the segmenter *)

Section SegmenterState.
Variable timecodes : list (string * string).
Variables artist album : string.

(** The time of entry [i], the empty string past the end. *)
Definition timeAt (i : nat) : string :=
  default EmptyString (fst <$> timecodes !! i).

Definition titleAt (i : nat) : string :=
  default EmptyString (snd <$> timecodes !! i).

(** Track [j] as it stands when [k] rounds of the loop are done: the
    first track receives its end in the round of index 1, every later
    one in its own round. *)
Definition endAfter (k j : nat) : string :=
  match j with
  | O => if (2 <=? k)%nat then timeAt 1 else EmptyString
  | S _ => timeAt (S j)
  end.

Definition trackAfter (k j : nat) : track :=
  {| Number := Z.of_nat j + 1; Total := len timecodes; Title := titleAt j;
     Start := timeAt j; End := endAfter k j; Artist := artist; Album := album |}.

Definition tracksAfter (k : nat) : list track :=
  trackAfter k <$> seq 0 k.

End SegmenterState.

(** ** Digits *)

Fixpoint allDigits (s : string) : bool :=
  match s with
  | EmptyString => true
  | String c r => isDigit c && allDigits r
  end.

(** The number a string of digits denotes, read from the left. *)
Fixpoint decimalFrom (acc : Z) (s : string) : Z :=
  match s with
  | EmptyString => acc
  | String c r => decimalFrom (acc * 10 + digitVal c) r
  end.

Definition decimalValue (s : string) : Z := decimalFrom 0 s.

Definition signOf (n : Z) : string := if n <? 0 then "-" else EmptyString.

(** ** Names and arguments *)

Definition padWidth (t : track) : nat := if 99 <? Total t then 3%nat else 2%nat.

(** A name that [path.Clean] leaves alone: not empty, without a slash, and
    neither [.] nor [..]. *)
Definition plainName (s : string) : Prop :=
  s ≠ EmptyString ∧ byteIn "/" s = false ∧ s ≠ "." ∧ s ≠ "..".

Definition quoted (field value : string) : string :=
  field +:+ "=" +:+ dquote +:+ value +:+ dquote.

Definition cutWindow (t : track) : list string :=
  if isEmpty (End t) then ["-ss"; Start t] else ["-ss"; Start t; "-to"; End t].

(** The value that follows the option [opt], if the option occurs. *)
Fixpoint optionValue (opt : string) (args : list string) : option string :=
  match args with
  | o :: (v :: _) as more => if String.eqb o opt then Some v else optionValue opt more
  | _ => None
  end.

(** ** Bytes at the ends of a string *)

Fixpoint allIn (s cutset : string) : bool :=
  match s with
  | EmptyString => true
  | String c r => byteIn c cutset && allIn r cutset
  end.

(** Whether the first (last) byte of a string is one of the cutset. *)
Definition startsIn (s cutset : string) : bool :=
  match s with
  | EmptyString => false
  | String c _ => byteIn c cutset
  end.

Fixpoint endsIn (s cutset : string) : bool :=
  match s with
  | EmptyString => false
  | String c EmptyString => byteIn c cutset
  | String _ r => endsIn r cutset
  end.

(** ** The syntax of accepted times *)

(** A field of exactly two digits whose value is below [bound]. *)
Definition twoDigit (bound : Z) (s : string) : Prop :=
  ∃ c0 c1, s = String c0 (String c1 EmptyString) ∧
           isDigit c0 = true ∧ isDigit c1 = true ∧
           digitVal c0 * 10 + digitVal c1 < bound.

Definition oneDigit (s : string) : Prop :=
  ∃ c0, s = String c0 EmptyString ∧ isDigit c0 = true.

(** Nothing, or a comma or period and at least one digit. *)
Definition fraction (s : string) : Prop :=
  s = EmptyString ∨
  ∃ c ds, s = String c ds ∧ commaOrPeriod c = true ∧
          ds ≠ EmptyString ∧ allDigits ds = true.

(** The tokens [time.Parse] accepts for the layout [15:04:05]: an hour of
    one or two digits below 24, a minute and a second of two digits below
    60, colons between them, and an optional fraction of a second. *)
Definition timeOfDaySyntax (s : string) : Prop :=
  ∃ h m sec f,
    s = h +:+ ":" +:+ m +:+ ":" +:+ sec +:+ f ∧
    (oneDigit h ∨ twoDigit 24 h) ∧ twoDigit 60 m ∧ twoDigit 60 sec ∧
    fraction f.

(** ** The lines of the timecode file *)

(** The three kinds of non-empty lines. *)
Definition entryLine (line : string) (tc : string * string) : Prop :=
  ∃ before after,
    line = before +:+ " " +:+ after ∧ byteIn " " before = false ∧
    timeOfDaySyntax before ∧ tc = (before, Trim after " ").



(** A line the loop passes: an empty one, or one that makes an entry. *)
Definition goodLine (line : string) : Prop :=
  line = EmptyString ∨ ∃ tc, entryLine line tc.

Definition nonEmpty (lines : list string) : list string :=
  filter (λ l, isEmpty l = false) lines.

(** ** The lines of a file and the lines that are read *)

(** The lines of a file: the bytes between its newlines, a carriage return
    among them, and what follows the last newline when that is not empty. *)
Fixpoint fileLinesFrom (cur : list ascii) (data : string) : list string :=
  match data with
  | EmptyString =>
      match cur with
      | [] => []
      | _ => [string_of_list_ascii (rev cur)]
      end
  | String c r =>
      if Ascii.eqb c "010"
      then string_of_list_ascii (rev cur) :: fileLinesFrom [] r
      else fileLinesFrom (c :: cur) r
  end.

Definition fileLines (data : string) : list string := fileLinesFrom [] data.

Definition strlen (s : string) : Z := Z.of_nat (String.length s).

(** A line the buffer of the scanner cannot hold. *)
Definition tooLong (line : string) : bool := MaxScanTokenSize <=? strlen line.

(** The text of a line: the line without the carriage return at its end. *)
Definition lineText (line : string) : string :=
  string_of_list_ascii (rev (dropCR (rev (list_ascii_of_string line)))).

(** The lines that are read: the texts of the lines that come before the
    first line that is too long. *)
Fixpoint scanned (lines : list string) : list string :=
  match lines with
  | [] => []
  | line :: more => if tooLong line then [] else lineText line :: scanned more
  end.

(** The entry a line makes, if it makes one. *)
Definition entryOf (line : string) : option (string * string) :=
  match scanLine line with
  | Entry tc => Some tc
  | _ => None
  end.

(** The entries of a successful parse. *)
Definition readTimecodes_ok (lines : list string) : option (list (string * string)) :=
  match readTimecodes lines with
  | inr timecodes => Some timecodes
  | inl _ => None
  end.

(** ** The log of a run *)

Definition commands (log : list event) : list (string * list string * procResult) :=
  omap (λ ev, match ev with
              | EvCommand c arg r => Some (c, arg, r)
              | _ => None
              end) log.

(** The error [execCommand] makes of the end of a process, if any. *)
Definition errorOf (r : procResult) : option error :=
  match r with
  | StartFailed e => Some (StartError e)
  | Exited false stderr => Some (ExitError stderr)
  | Exited true _ => None
  end.

Definition cut (audioFile : string) (t : track) (r : procResult)
  : string * list string * procResult :=
  ("ffmpeg", ffmpegArgs t audioFile, r).

Definition tag (audioFile : string) (t : track) (r : procResult)
  : string * list string * procResult :=
  ("eyed3", eyeD3Args t audioFile, r).

(** The processes run for a list of tracks and the result of the loop:
    track by track, the cut then the tag, up to the first process that
    fails, whose error is the result. *)
Inductive cutTagLog (audioFile : string)
  : list track → list (string * list string * procResult) → result unit → Prop :=
| AllDone :
    cutTagLog audioFile [] [] (Ok tt)
| CutFails t more r e :
    errorOf r = Some e →
    cutTagLog audioFile (t :: more) [cut audioFile t r] (Err e)
| TagFails t more r1 r2 e :
    errorOf r1 = None → errorOf r2 = Some e →
    cutTagLog audioFile (t :: more) [cut audioFile t r1; tag audioFile t r2] (Err e)
| NextTrack t more r1 r2 cs res :
    errorOf r1 = None → errorOf r2 = None →
    cutTagLog audioFile more cs res →
    cutTagLog audioFile (t :: more)
      (cut audioFile t r1 :: tag audioFile t r2 :: cs) res.

(** All the processes that a run without failure starts, in order. *)
Definition schedule (audioFile : string) (tracks : list track)
  : list (string * list string) :=
  t ← tracks; [("ffmpeg", ffmpegArgs t audioFile); ("eyed3", eyeD3Args t audioFile)].

(** The calls that only look at the files. *)
Definition isRead (ev : event) : Prop :=
  match ev with
  | EvStat _ _ | EvOpen _ _ => True
  | _ => False
  end.

Definition isMkdir (ev : event) : Prop :=
  match ev with
  | EvMkdirAll _ _ => True
  | _ => False
  end.

Definition isCommand (ev : event) : Prop :=
  match ev with
  | EvCommand _ _ _ => True
  | _ => False
  end.

(** ** The ways a run can go *)

Section RunCases.
Context {World : Type} (os : OS World).

(** The ways a run can go, with the world and the log it leaves. *)
Inductive runCase (audioFile timecodesFile artist album : string) (w : World)
  : state → result unit → Prop :=
| NoAudioFile :
    os_Stat os w audioFile = false →
    runCase audioFile timecodesFile artist album w
      (w, [EvStat audioFile false]) (Err AudioFileNotFound)
| NoTimecodesFile :
    os_Stat os w audioFile = true → os_Stat os w timecodesFile = false →
    runCase audioFile timecodesFile artist album w
      (w, [EvStat audioFile true; EvStat timecodesFile false])
      (Err TimecodesFileNotFound)
| Unreadable :
    os_Stat os w audioFile = true → os_Stat os w timecodesFile = true →
    os_Open os w timecodesFile = None →
    runCase audioFile timecodesFile artist album w
      (w, [EvStat audioFile true; EvStat timecodesFile true;
           EvOpen timecodesFile false])
      (Err CannotReadTimecodes)
| ParseFails data e :
    os_Stat os w audioFile = true → os_Stat os w timecodesFile = true →
    os_Open os w timecodesFile = Some data →
    readTimecodes (ScanLines data) = inl e →
    runCase audioFile timecodesFile artist album w
      (w, [EvStat audioFile true; EvStat timecodesFile true;
           EvOpen timecodesFile true])
      (Err e)
| MkdirFails data timecodes tracks w1 msg :
    os_Open os w timecodesFile = Some data →
    readTimecodes (ScanLines data) = inr timecodes →
    segment timecodes artist album = Some tracks →
    os_MkdirAll os w (path_Join [artist; album]) = (w1, Some msg) →
    runCase audioFile timecodesFile artist album w
      (w1, [EvStat audioFile true; EvStat timecodesFile true;
            EvOpen timecodesFile true;
            EvMkdirAll (path_Join [artist; album]) (Some msg)])
      (Err (MkdirError msg))
| Processed data timecodes tracks w1 w' new res :
    os_Open os w timecodesFile = Some data →
    readTimecodes (ScanLines data) = inr timecodes →
    segment timecodes artist album = Some tracks →
    os_MkdirAll os w (path_Join [artist; album]) = (w1, None) →
    cutTagLog audioFile tracks (commands new) res →
    Forall (λ ev, ∀ dir err, ev ≠ EvMkdirAll dir err) new →
    runCase audioFile timecodesFile artist album w
      (w', [EvStat audioFile true; EvStat timecodesFile true;
            EvOpen timecodesFile true;
            EvMkdirAll (path_Join [artist; album]) None] ++ new)
      res.

End RunCases.

(** ** The wording of the specification *)

(** The container an extension implies, as the specification has it: the
    format the extension names, that is the extension without its dot. *)
Definition spec_impliedContainer (ext : string) : string :=
  match ext with
  | String "." name => name
  | _ => ext
  end.

(** A request targets the container its output extension implies when it
    leaves the choice of the format to the extension or asks for the very
    format the extension names. *)
Definition spec_targetsImpliedContainer (args : list string) (ext : string) : Prop :=
  match optionValue "-f" args with
  | None => True
  | Some f => f = spec_impliedContainer ext
  end.

(** The syntax the specification gives: two digits each for the hour
    (00 to 23), the minute and the second (00 to 59). *)
Definition spec_validHHMMSS (s : string) : bool :=
  match s with
  | String h0 (String h1 (String ":" (String m0 (String m1
      (String ":" (String s0 (String s1 EmptyString))))))) =>
      isDigit h0 && isDigit h1 && isDigit m0 && isDigit m1
      && isDigit s0 && isDigit s1
      && (digitVal h0 * 10 + digitVal h1 <? 24)
      && (digitVal m0 * 10 + digitVal m1 <? 60)
      && (digitVal s0 * 10 + digitVal s1 <? 60)
  | _ => false
  end.

(** The whitespace bytes: space, tab, line feed, vertical tab, form feed
    and carriage return. *)
Definition spec_whitespace : string :=
  String " " (String "009" (String "010" (String "011" (String "012"
    (String "013" EmptyString))))).

(** The split the specification describes: the time token is what comes
    before the first whitespace byte, the title what comes after it, without
    its leading and trailing whitespace. *)
Fixpoint spec_beforeWhitespace (s : string) : string :=
  match s with
  | EmptyString => EmptyString
  | String c r =>
      if byteIn c spec_whitespace then EmptyString
      else String c (spec_beforeWhitespace r)
  end.

Fixpoint spec_fromWhitespace (s : string) : string :=
  match s with
  | EmptyString => EmptyString
  | String c r => if byteIn c spec_whitespace then s else spec_fromWhitespace r
  end.

Definition spec_splitLine (line : string) : string * string :=
  (spec_beforeWhitespace line, Trim (spec_fromWhitespace line) spec_whitespace).







(** ** Sample data *)

Definition track1of5 : track :=
  {| Number := 1; Total := 5; Title := "Title"; Start := "00:00:00";
     End := "00:03:15"; Artist := "Artist"; Album := "Album" |}.

Definition track1of150 : track :=
  {| Number := 1; Total := 150; Title := "Title"; Start := "00:00:00";
     End := "00:03:15"; Artist := "Artist"; Album := "Album" |}.

Definition tabLine : string := "00:00:00" +:+ tab +:+ "Intro".

Definition track2of5 : track :=
  {| Number := 2; Total := 5; Title := "Another"; Start := "00:03:15";
     End := EmptyString; Artist := "Artist"; Album := "Album" |}.

(** A line of 65536 bytes and more, and a file that has it as its second
    line of three. *)
Definition longLine : string :=
  "00:01:00 " +:+ string_of_list_ascii
                    (replicate (Z.to_nat MaxScanTokenSize) "x"%char).

Definition longFile : string :=
  "00:00:00 Intro" +:+ newline +:+ longLine +:+ newline
  +:+ "00:03:15 Track Two" +:+ newline.

(** The log of the run on the sample files, all processes succeeding. *)
Definition demoLog : list event :=
  Eval vm_compute in
    (run (fakeOS demoFiles None) "song.flac" "times.txt" "A" "B" (0%nat, [])).1.2.

(** ** The log of the processing loop *)

(** The progress line printed for the output file [dest]. *)
Definition progressLine (dest : string) : string :=
  "processing track " +:+ dquote +:+ dest +:+ dquote +:+ String "010" EmptyString.

Definition progress (audioFile : string) (t : track) : event :=
  EvPrintf (progressLine (outputFilename t audioFile)).

(** The calls of the loop over a list of tracks, with the progress lines:
    for each track its line, its cut and its tag, up to the first process
    that fails. *)
Inductive loopLog (audioFile : string) : list track → list event → Prop :=
| LoopDone :
    loopLog audioFile [] []
| LoopCutFails t more r e :
    errorOf r = Some e →
    loopLog audioFile (t :: more)
      [progress audioFile t; EvCommand "ffmpeg" (ffmpegArgs t audioFile) r]
| LoopTagFails t more r1 r2 e :
    errorOf r1 = None → errorOf r2 = Some e →
    loopLog audioFile (t :: more)
      [progress audioFile t; EvCommand "ffmpeg" (ffmpegArgs t audioFile) r1;
       EvCommand "eyed3" (eyeD3Args t audioFile) r2]
| LoopNext t more r1 r2 rest :
    errorOf r1 = None → errorOf r2 = None →
    loopLog audioFile more rest →
    loopLog audioFile (t :: more)
      (progress audioFile t :: EvCommand "ffmpeg" (ffmpegArgs t audioFile) r1
       :: EvCommand "eyed3" (eyeD3Args t audioFile) r2 :: rest).

(** The bytes of an accepted time. *)
Definition timeAlphabet : string := "0123456789:.,".

(** The invariant of the tracks of a run. *)
Definition trackInvariant (n : Z) (t : track) : Prop :=
  1 ≤ Number t ≤ Total t ∧ Total t = n ∧ n ≤ 999.

(** * Properties *)

(** ** The segmenter *)

Section Segmenter.
Variable timecodes : list (string * string).
Variables artist album : string.

Lemma tracksAfter_length k : length (tracksAfter timecodes artist album k) = k.
Proof. unfold tracksAfter. by rewrite length_fmap, length_seq. Qed.

Lemma tracksAfter_lookup k j :
  (j < k)%nat →
  tracksAfter timecodes artist album k !! j
  = Some (trackAfter timecodes artist album k j).
Proof.
  intros Hj. unfold tracksAfter.
  by rewrite list_lookup_fmap, lookup_seq_lt.
Qed.

Lemma timeAt_ge i :
  (length timecodes ≤ i)%nat → timeAt timecodes i = EmptyString.
Proof. intros Hi. unfold timeAt. by rewrite lookup_ge_None_2. Qed.

Lemma trackAfter_stable k j :
  (j < k)%nat → k ≠ 1%nat →
  trackAfter timecodes artist album (S k) j
  = trackAfter timecodes artist album k j.
Proof.
  intros Hj Hk. unfold trackAfter. f_equal.
  destruct j as [|j]; simpl; [|done].
  destruct k as [|[|k]]; simpl; done || lia.
Qed.

Lemma segmentStep_tracksAfter k :
  (k < length timecodes)%nat →
  segmentStep timecodes artist album (tracksAfter timecodes artist album k) k
  = Some (tracksAfter timecodes artist album (S k)).
Proof.
  intros Hk.
  destruct (lookup_lt_is_Some_2 timecodes k Hk) as [tc Htc].
  assert (Htime : timeAt timecodes k = tc.1) by (unfold timeAt; by rewrite Htc).
  assert (Htitle : titleAt timecodes k = tc.2) by (unfold titleAt; by rewrite Htc).
  unfold segmentStep. rewrite Htc. cbn [mbind option_bind].
  rewrite <- Htime, <- Htitle. unfold len.
  destruct (decide (k = 0%nat)) as [->|Hk0];
    [|destruct (decide (k = 1%nat)) as [->|Hk1]].
  - (* round 0: the track is appended, nothing else *)
    reflexivity.
  - (* round 1: the first track receives its end *)
    change (Z.of_nat 1 =? 1) with true. cbn [mbind option_bind].
    change (tracksAfter timecodes artist album 1 ++ _) with
      [trackAfter timecodes artist album 1 0;
       setEnd EmptyString (trackAfter timecodes artist album 2 1)].
    cbn [lookup list_lookup Nat.sub mbind option_bind alter list_alter].
    change (0 <? Z.of_nat 1) with true. cbn [andb].
    change (tracksAfter timecodes artist album 2) with
      [trackAfter timecodes artist album 2 0;
       trackAfter timecodes artist album 2 1].
    destruct (timecodes !! (1 + 1)%nat) as [next|] eqn:Hnext.
    + assert ((Z.of_nat 1 <? Z.of_nat (length timecodes) - 1) = true) as ->.
      { apply Z.ltb_lt. apply lookup_lt_Some in Hnext. lia. }
      cbn [mbind option_bind lookup list_lookup alter list_alter].
      unfold setEnd, trackAfter, endAfter, timeAt in *. simpl in *.
      rewrite Hnext, Htc. reflexivity.
    + assert ((Z.of_nat 1 <? Z.of_nat (length timecodes) - 1) = false) as ->.
      { apply Z.ltb_ge. apply lookup_ge_None_1 in Hnext. lia. }
      unfold setEnd, trackAfter, endAfter, timeAt in *. simpl in *.
      rewrite Hnext, Htc. reflexivity.
  - (* later rounds: the new track receives its end unless it is the last *)
    assert ((Z.of_nat k =? 1) = false) as -> by (apply Z.eqb_neq; lia).
    assert ((0 <? Z.of_nat k) = true) as -> by (apply Z.ltb_lt; lia).
    cbn [andb].
    assert (Hnew : tracksAfter timecodes artist album (S k)
                   = tracksAfter timecodes artist album k
                     ++ [trackAfter timecodes artist album (S k) k]).
    { unfold tracksAfter. rewrite seq_S, fmap_app. simpl. f_equal.
      apply list_fmap_ext. intros j x Hx.
      apply lookup_seq in Hx as [-> Hx]. simpl.
      apply trackAfter_stable; lia. }
    rewrite Hnew.
    destruct (timecodes !! (k + 1)%nat) as [next|] eqn:Hnext.
    + assert ((Z.of_nat k <? Z.of_nat (length timecodes) - 1) = true) as ->.
      { apply Z.ltb_lt. apply lookup_lt_Some in Hnext. lia. }
      cbn [mbind option_bind].
      rewrite lookup_app_r by (rewrite tracksAfter_length; lia).
      rewrite tracksAfter_length, Nat.sub_diag.
      cbn [lookup list_lookup mbind option_bind].
      f_equal.
      rewrite alter_app_r_alt by (rewrite tracksAfter_length; lia).
      rewrite tracksAfter_length, Nat.sub_diag. simpl. f_equal. f_equal.
      unfold setEnd, trackAfter. simpl. f_equal.
      destruct k as [|k]; [done|]. simpl.
      unfold timeAt. replace (S (S k)) with (S k + 1)%nat by lia.
      by rewrite Hnext.
    + assert ((Z.of_nat k <? Z.of_nat (length timecodes) - 1) = false) as ->.
      { apply Z.ltb_ge. apply lookup_ge_None_1 in Hnext. lia. }
      do 3 f_equal.
      unfold trackAfter. f_equal.
      destruct k as [|k]; [done|]. simpl.
      unfold timeAt. replace (S (S k)) with (S k + 1)%nat by lia.
      by rewrite Hnext.
Qed.

Lemma segmentLoop_tracksAfter m k :
  (k + m = length timecodes)%nat →
  segmentLoop timecodes artist album (seq k m) (tracksAfter timecodes artist album k)
  = Some (tracksAfter timecodes artist album (length timecodes)).
Proof.
  revert k. induction m as [|m IH]; intros k Hkm; simpl.
  - by replace k with (length timecodes) by lia.
  - rewrite segmentStep_tracksAfter by lia. simpl.
    apply IH. lia.
Qed.

(** The segmenter never panics, and its result is known in closed form. *)
Lemma segment_eq :
  segment timecodes artist album
  = Some (tracksAfter timecodes artist album (length timecodes)).
Proof. unfold segment. by apply (segmentLoop_tracksAfter _ 0%nat). Qed.

(** When the loop is over, every track ends where the next one starts. *)
Lemma endAfter_final j :
  endAfter timecodes (length timecodes) j = timeAt timecodes (S j).
Proof.
  destruct j as [|j]; [|reflexivity].
  unfold endAfter.
  destruct (Nat.leb_spec 2 (length timecodes)); [done|].
  symmetry. apply timeAt_ge. lia.
Qed.

End Segmenter.

(** C1. For a timecode list of length n, 1 <= n <= 999, the segmenter
    returns (without panicking) exactly n tracks; track i (counted from 0)
    has number i + 1 and total n and carries the time and title of entry i;
    the end of each track is the start of the next one, and the end of the
    last track is absent (the empty string), also when n = 1. *)
Theorem segment_contiguous (timecodes : list (string * string)) (artist album : string) :
  (1 ≤ length timecodes ≤ 999)%nat →
  ∃ tracks,
    segment timecodes artist album = Some tracks ∧
    length tracks = length timecodes ∧
    (∀ i t, tracks !! i = Some t →
       Number t = Z.of_nat i + 1 ∧ Total t = len timecodes ∧
       timecodes !! i = Some (Start t, Title t) ∧
       Artist t = artist ∧ Album t = album) ∧
    (∀ i t t', tracks !! i = Some t → tracks !! S i = Some t' → End t = Start t') ∧
    (∀ t, tracks !! (length timecodes - 1)%nat = Some t → End t = EmptyString).
Proof.
  intros Hn. exists (tracksAfter timecodes artist album (length timecodes)).
  split; [apply segment_eq|].
  split; [apply tracksAfter_length|].
  split; [|split].
  - intros i t Ht.
    pose proof (lookup_lt_Some _ _ _ Ht) as Hi.
    rewrite tracksAfter_length in Hi.
    rewrite tracksAfter_lookup in Ht by done.
    injection Ht as <-. simpl.
    repeat split; try done.
    destruct (lookup_lt_is_Some_2 timecodes i Hi) as [[tm ti] Htc].
    unfold timeAt, titleAt. by rewrite Htc.
  - intros i t t' Ht Ht'.
    pose proof (lookup_lt_Some _ _ _ Ht') as Hi.
    rewrite tracksAfter_length in Hi.
    rewrite tracksAfter_lookup in Ht by lia.
    rewrite tracksAfter_lookup in Ht' by lia.
    injection Ht as <-. injection Ht' as <-. simpl.
    apply endAfter_final.
  - intros t Ht.
    rewrite tracksAfter_lookup in Ht by lia.
    injection Ht as <-. simpl.
    rewrite endAfter_final. apply timeAt_ge. lia.
Qed.

Lemma segment_contiguous_witness :
  ∃ tracks,
    segment [("00:00:00", "Intro"); ("00:03:15", "Track Two")] "A" "B" = Some tracks ∧
    length tracks = 2%nat.
Proof.
  destruct (segment_contiguous
              [("00:00:00", "Intro"); ("00:03:15", "Track Two")] "A" "B")
    as (tracks & Hseg & Hlen & _).
  - simpl. lia.
  - exists tracks. split; [exact Hseg | exact Hlen].
Defined.

(** ** Strings *)

Lemma append_nil_l (s : string) : EmptyString +:+ s = s.
Proof. reflexivity. Qed.

Lemma append_cons (c : ascii) (s1 s2 : string) :
  String c s1 +:+ s2 = String c (s1 +:+ s2).
Proof. reflexivity. Qed.

Ltac simpl_append := rewrite ?append_cons, ?append_nil_l.

Lemma append_nil_r (s : string) : s +:+ EmptyString = s.
Proof. induction s as [|c s IH]; simpl_append; congruence. Qed.

Lemma append_assoc (s1 s2 s3 : string) : (s1 +:+ s2) +:+ s3 = s1 +:+ (s2 +:+ s3).
Proof. induction s1 as [|c s1 IH]; simpl_append; congruence. Qed.

Lemma length_append (s1 s2 : string) :
  String.length (s1 +:+ s2) = (String.length s1 + String.length s2)%nat.
Proof. induction s1 as [|c s1 IH]; simpl_append; simpl; congruence. Qed.

Lemma string_of_list_ascii_app (l1 l2 : list ascii) :
  string_of_list_ascii (l1 ++ l2)
  = string_of_list_ascii l1 +:+ string_of_list_ascii l2.
Proof. induction l1 as [|c l1 IH]; simpl; simpl_append; congruence. Qed.

Lemma byteIn_app (c : ascii) (s1 s2 : string) :
  byteIn c (s1 +:+ s2) = byteIn c s1 || byteIn c s2.
Proof.
  induction s1 as [|d s1 IH]; simpl_append; simpl; [done|].
  by rewrite IH, orb_assoc.
Qed.

Lemma isEmpty_true (s : string) : isEmpty s = true ↔ s = EmptyString.
Proof. destruct s; simpl; split; done. Qed.

Lemma isEmpty_false (s : string) : isEmpty s = false ↔ s ≠ EmptyString.
Proof. destruct s; simpl; split; done. Qed.

(** ** Decimal formatting *)

Lemma digitChar_ok (d : Z) :
  0 ≤ d < 10 → isDigit (digitChar d) = true ∧ digitVal (digitChar d) = d.
Proof.
  intros Hd.
  assert (d = 0 ∨ d = 1 ∨ d = 2 ∨ d = 3 ∨ d = 4 ∨ d = 5 ∨ d = 6 ∨ d = 7
          ∨ d = 8 ∨ d = 9) as Hcases by lia.
  repeat (destruct Hcases as [-> | Hcases]); try subst d; by split.
Qed.

Lemma allDigits_app (s1 s2 : string) :
  allDigits (s1 +:+ s2) = allDigits s1 && allDigits s2.
Proof.
  induction s1 as [|c s1 IH]; simpl_append; simpl; [done|].
  by rewrite IH, andb_assoc.
Qed.

Lemma decimalFrom_app (acc : Z) (s1 s2 : string) :
  decimalFrom acc (s1 +:+ s2) = decimalFrom (decimalFrom acc s1) s2.
Proof.
  revert acc. induction s1 as [|c s1 IH]; intros acc; simpl_append; simpl;
    [done|apply IH].
Qed.

(** With enough fuel the digit loop writes, in front of [acc], a non-empty
    string of digits that denotes [u]. *)
Lemma fmtDigits_spec (fuel : nat) (u : Z) (acc : string) :
  0 ≤ u < 2 ^ Z.of_nat fuel → (1 ≤ fuel)%nat →
  ∃ ds, fmtDigits fuel u acc = ds +:+ acc ∧
        allDigits ds = true ∧ decimalValue ds = u ∧ ds ≠ EmptyString.
Proof.
  revert u acc. induction fuel as [|fuel IH]; intros u acc Hu Hfuel; [lia|].
  simpl. destruct (Z.ltb_spec u 10) as [Hlt|Hge].
  - exists (String (digitChar u) EmptyString).
    destruct (digitChar_ok u) as [Hd Hv]; [lia|].
    unfold decimalValue. simpl. rewrite Hd, Hv. done.
  - assert (Hf : (1 ≤ fuel)%nat).
    { destruct fuel as [|fuel]; [|lia]. simpl in Hu. lia. }
    assert (Hdiv : 0 ≤ u / 10 < 2 ^ Z.of_nat fuel).
    { split; [apply Z.div_pos; lia|].
      apply Z.div_lt_upper_bound; [lia|].
      rewrite Nat2Z.inj_succ, Z.pow_succ_r in Hu by lia. lia. }
    destruct (IH (u / 10) (String (digitChar (u mod 10)) acc) Hdiv Hf)
      as (ds & Heq & Hall & Hval & Hne).
    destruct (digitChar_ok (u mod 10)) as [Hd Hv].
    { apply Z.mod_pos_bound. lia. }
    exists (ds +:+ String (digitChar (u mod 10)) EmptyString).
    rewrite Heq, append_assoc. simpl_append.
    rewrite allDigits_app, Hall. simpl. rewrite Hd.
    unfold decimalValue in *. rewrite decimalFrom_app, Hval. simpl.
    rewrite Hv. repeat split; try done.
    + pose proof (Z.div_mod u 10). lia.
    + destruct ds; done.
Qed.

Lemma fmtUint_spec (u : Z) :
  0 ≤ u →
  ∃ ds, fmtUint u = ds ∧ allDigits ds = true ∧ decimalValue ds = u
        ∧ ds ≠ EmptyString.
Proof.
  intros Hu. unfold fmtUint.
  destruct (fmtDigits_spec (S (Z.to_nat (Z.log2 u))) u EmptyString)
    as (ds & Heq & Hrest); [|lia|].
  - split; [done|].
    rewrite Nat2Z.inj_succ, Z2Nat.id by apply Z.log2_nonneg.
    destruct (Z.eq_dec u 0) as [->|Hne]; [done|].
    apply Z.log2_spec. lia.
  - exists ds. by rewrite Heq, append_nil_r.
Qed.

(** The number of digits written for the integers the program pads. *)
Lemma fmtUint_length (u : Z) :
  0 ≤ u < 1000 →
  String.length (fmtUint u)
  = if u <? 10 then 1%nat else if u <? 100 then 2%nat else 3%nat.
Proof.
  intros Hu. unfold fmtUint.
  destruct (Z.ltb_spec u 10) as [H10|H10].
  { simpl. by apply Z.ltb_lt in H10 as ->. }
  assert (3 ≤ Z.log2 u) as Hlog.
  { change 3 with (Z.log2 8). apply Z.log2_le_mono. lia. }
  destruct (Z.to_nat (Z.log2 u)) as [|[|[|fuel]]] eqn:Hfuel; try lia.
  cbn [fmtDigits].
  apply Z.ltb_ge in H10 as H10'. rewrite H10'.
  destruct (Z.ltb_spec u 100) as [H100|H100].
  { assert ((u / 10 <? 10) = true) as ->; [|done].
    apply Z.ltb_lt. apply Z.div_lt_upper_bound; lia. }
  assert ((u / 10 <? 10) = false) as ->.
  { apply Z.ltb_ge. apply Z.div_le_lower_bound; lia. }
  assert ((u / 10 / 10 <? 10) = true) as ->; [|done].
  apply Z.ltb_lt. apply Z.div_lt_upper_bound; [lia|].
  apply Z.div_lt_upper_bound; lia.
Qed.

Lemma zeros_allDigits (n : nat) : allDigits (zeros n) = true.
Proof. induction n; simpl; done. Qed.

Lemma zeros_length (n : nat) : String.length (zeros n) = n.
Proof. induction n as [|n IH]; simpl; [done|by rewrite IH]. Qed.

Lemma decimalFrom_zeros (n : nat) (s : string) :
  decimalFrom 0 (zeros n +:+ s) = decimalFrom 0 s.
Proof. induction n as [|n IH]; simpl; simpl_append; [done|apply IH]. Qed.

(** A non-negative integer printed with a zero-padded width: digits only,
    denoting the integer, at least [width] of them. *)
Lemma fmtInteger_digits (n : Z) (width : nat) :
  0 ≤ n →
  allDigits (fmtInteger n width) = true ∧
  decimalValue (fmtInteger n width) = n ∧
  String.length (fmtInteger n width)
  = Nat.max width (String.length (fmtUint n)).
Proof.
  intros Hn. unfold fmtInteger.
  assert ((n <? 0) = false) as -> by (apply Z.ltb_ge; lia).
  destruct (fmtUint_spec n Hn) as (ds & -> & Hall & Hval & _).
  unfold zeroPad.
  rewrite allDigits_app, zeros_allDigits, Hall.
  unfold decimalValue in *. rewrite decimalFrom_zeros, Hval.
  rewrite length_append, zeros_length.
  repeat split; lia.
Qed.

(** ** Naming *)

(** The file name [v] built by [outputFilename], before it is joined to the
    artist and album directories. *)
Lemma outputFilename_eq (t : track) (audioFile : string) :
  outputFilename t audioFile
  = path_Join [Artist t; Album t;
               fmtInteger (Number t) (padWidth t) +:+ " - " +:+ Title t
               +:+ filepath_Ext audioFile].
Proof.
  unfold outputFilename, padFmt, padWidth.
  destruct (99 <? Total t); cbn [Sprintf fmtOperand head tail isDigit];
    simpl_append; by rewrite append_nil_r.
Qed.

(** The extension is a suffix of the source file name, copied as it is. *)
Lemma extScan_suffix (rpath : list ascii) (suffix : string) :
  ∃ stem, string_of_list_ascii (rev rpath) +:+ suffix
          = stem +:+ extScan rpath suffix.
Proof.
  revert suffix. induction rpath as [|c more IH]; intros suffix; simpl.
  - exists suffix. by rewrite append_nil_r.
  - rewrite string_of_list_ascii_app, append_assoc. simpl. simpl_append.
    destruct (Ascii.eqb c "/").
    + eexists. by rewrite append_nil_r.
    + destruct (Ascii.eqb c ".").
      * by eexists.
      * apply IH.
Qed.

Lemma filepath_Ext_suffix (p : string) :
  ∃ stem, p = stem +:+ filepath_Ext p.
Proof.
  destruct (extScan_suffix (rev (list_ascii_of_string p)) EmptyString)
    as [stem Hstem].
  exists stem. unfold filepath_Ext. rewrite <- Hstem.
  by rewrite rev_involutive, string_of_list_ascii_of_string, append_nil_r.
Qed.

(** *** Joining plain names *)

Lemma elementsFrom_last (cur : list ascii) (s : string) :
  byteIn "/" s = false →
  elementsFrom cur s = [string_of_list_ascii (rev cur) +:+ s].
Proof.
  revert cur. induction s as [|c s IH]; intros cur Hs; cbn [elementsFrom].
  - by rewrite append_nil_r.
  - cbn [byteIn] in Hs. apply orb_false_iff in Hs as [Hc Hs].
    rewrite Ascii.eqb_sym, Hc, IH by done. cbn [rev].
    by rewrite string_of_list_ascii_app, append_assoc.
Qed.

Lemma elementsFrom_slash (cur : list ascii) (s rest : string) :
  byteIn "/" s = false →
  elementsFrom cur (s +:+ "/" +:+ rest)
  = (string_of_list_ascii (rev cur) +:+ s) :: elementsFrom [] rest.
Proof.
  revert cur. induction s as [|c s IH]; intros cur Hs; simpl_append;
    cbn [elementsFrom].
  - change (Ascii.eqb "/" "/") with true. cbn iota. by rewrite append_nil_r.
  - cbn [byteIn] in Hs. apply orb_false_iff in Hs as [Hc Hs].
    rewrite Ascii.eqb_sym, Hc, IH by done. cbn [rev].
    by rewrite string_of_list_ascii_app, append_assoc.
Qed.

Lemma cleanStep_plain (rooted : bool) (out : list string) (e : string) :
  plainName e → cleanStep rooted out e = e :: out.
Proof.
  intros (Hne & _ & Hdot & Hdotdot). unfold cleanStep.
  apply isEmpty_false in Hne as ->.
  apply String.eqb_neq in Hdot as ->. by apply String.eqb_neq in Hdotdot as ->.
Qed.

Lemma isRooted_cons (c : ascii) (s : string) :
  isRooted (String c s) = Ascii.eqb c "/".
Proof. destruct c as [[] [] [] [] [] [] [] []]; reflexivity. Qed.

(** Three plain names are joined as they are. *)
Lemma path_Join_plain (a b c : string) :
  plainName a → plainName b → plainName c →
  path_Join [a; b; c] = a +:+ "/" +:+ b +:+ "/" +:+ c.
Proof.
  intros Ha Hb Hc. unfold path_Join.
  pose proof Ha as (Hane & Haslash & _). pose proof Hb as (Hbne & Hbslash & _).
  pose proof Hc as (Hcne & Hcslash & _).
  rewrite !filter_cons, filter_nil.
  rewrite !decide_True by by apply isEmpty_false.
  cbn [joinSlash]. unfold path_Clean.
  assert (isEmpty (a +:+ "/" +:+ b +:+ "/" +:+ c) = false) as ->
    by by destruct a.
  assert (isRooted (a +:+ "/" +:+ b +:+ "/" +:+ c) = false) as ->.
  { destruct a as [|d a]; [done|]. cbn [byteIn] in Haslash.
    apply orb_false_iff in Haslash as [Hd _]. simpl_append.
    by rewrite isRooted_cons, Ascii.eqb_sym. }
  unfold elements.
  rewrite (elementsFrom_slash [] a) by done.
  rewrite (elementsFrom_slash [] b) by done.
  rewrite (elementsFrom_last [] c) by done.
  cbn [rev string_of_list_ascii fold_left]. rewrite !append_nil_l.
  rewrite !cleanStep_plain by done.
  cbn [rev app joinSlash].
  by assert (isEmpty (a +:+ "/" +:+ b +:+ "/" +:+ c) = false) as -> by by destruct a.
Qed.

Lemma extScan_noslash (rpath : list ascii) (suffix : string) :
  byteIn "/" suffix = false → byteIn "/" (extScan rpath suffix) = false.
Proof.
  revert suffix.
  induction rpath as [|c more IH]; intros suffix Hs; cbn [extScan]; [done|].
  destruct (Ascii.eqb c "/") eqn:Hslash; [done|].
  rewrite Ascii.eqb_sym in Hslash.
  destruct (Ascii.eqb c ".").
  - cbn [byteIn]. by rewrite Hslash.
  - apply IH. cbn [byteIn]. by rewrite Hslash.
Qed.

Lemma filepath_Ext_noslash (p : string) : byteIn "/" (filepath_Ext p) = false.
Proof. by apply extScan_noslash. Qed.

Lemma allDigits_noslash (s : string) :
  allDigits s = true → byteIn "/" s = false.
Proof.
  induction s as [|c s IH]; cbn [allDigits byteIn]; [done|].
  intros [Hc Hs]%andb_true_iff. rewrite IH by done.
  destruct (Ascii.eqb_spec "/" c) as [<-|]; [|done].
  by vm_compute in Hc.
Qed.

(** The file name of a track is plain when its title holds no slash. *)
Lemma fileName_plain (num title ext : string) :
  allDigits num = true → num ≠ EmptyString →
  byteIn "/" title = false → byteIn "/" ext = false →
  plainName (num +:+ " - " +:+ title +:+ ext).
Proof.
  intros Hnum Hne Htitle Hext.
  destruct num as [|d num]; [done|]. simpl in Hnum.
  apply andb_true_iff in Hnum as [Hd Hnum].
  repeat split.
  - done.
  - change (String d num) with (String d EmptyString +:+ num).
    rewrite append_assoc, !byteIn_app, Htitle, Hext.
    rewrite (allDigits_noslash num) by done.
    rewrite (allDigits_noslash (String d EmptyString)) by (simpl; by rewrite Hd).
    done.
  - simpl_append. intros [= -> _]. done.
  - simpl_append. intros [= -> _]. done.
Qed.

(** C4. For a track with 1 <= number <= total <= 999 the output file name
    is the join of the artist, the album and a name made of the track
    number in decimal, zero-padded to exactly 2 digits when total <= 99 and
    to exactly 3 digits when total > 99, then " - ", the title and the
    extension of the source file.  When the artist and the album are plain
    names and the title holds no slash, the join is the three of them with
    slashes between. *)
Theorem outputFilename_padding (t : track) (audioFile : string) :
  1 ≤ Number t ≤ Total t → Total t ≤ 999 →
  ∃ num : string,
    allDigits num = true ∧
    decimalValue num = Number t ∧
    String.length num = (if Total t <=? 99 then 2%nat else 3%nat) ∧
    outputFilename t audioFile
    = path_Join [Artist t; Album t;
                 num +:+ " - " +:+ Title t +:+ filepath_Ext audioFile] ∧
    (plainName (Artist t) → plainName (Album t) → byteIn "/" (Title t) = false →
     outputFilename t audioFile
     = Artist t +:+ "/" +:+ Album t +:+ "/"
       +:+ num +:+ " - " +:+ Title t +:+ filepath_Ext audioFile).
Proof.
  intros Hnum Htotal.
  exists (fmtInteger (Number t) (padWidth t)).
  destruct (fmtInteger_digits (Number t) (padWidth t)) as (Hall & Hval & Hlen);
    [lia|].
  assert (Hwidth : String.length (fmtInteger (Number t) (padWidth t))
                   = if Total t <=? 99 then 2%nat else 3%nat).
  { rewrite Hlen, fmtUint_length by lia. unfold padWidth.
    destruct (Z.leb_spec (Total t) 99) as [H99|H99].
    - assert ((99 <? Total t) = false) as -> by (apply Z.ltb_ge; lia).
      destruct (Z.ltb_spec (Number t) 10); [done|].
      assert ((Number t <? 100) = true) as -> by (apply Z.ltb_lt; lia). done.
    - assert ((99 <? Total t) = true) as -> by (apply Z.ltb_lt; lia).
      destruct (Number t <? 10); [done|]. by destruct (Number t <? 100). }
  split; [done|]. split; [done|]. split; [done|].
  split; [apply outputFilename_eq|].
  intros Hartist Halbum Htitle.
  rewrite outputFilename_eq. apply path_Join_plain; [done..|].
  apply fileName_plain; [done| |done|apply filepath_Ext_noslash].
  intros Hempty. rewrite Hempty in Hwidth. simpl in Hwidth.
  by destruct (Total t <=? 99).
Qed.

Lemma outputFilename_padding_witness :
  ∃ num : string,
    String.length num = 2%nat ∧ decimalValue num = 1 ∧
    outputFilename track1of5 "source.mp3"
    = "Artist/Album/" +:+ num +:+ " - Title" +:+ ".mp3".
Proof.
  destruct (outputFilename_padding track1of5 "source.mp3")
    as (num & _ & Hval & Hlen & _ & Hname).
  - simpl. lia.
  - simpl. lia.
  - exists num. split; [exact Hlen|]. split; [exact Hval|].
    apply Hname; repeat split; discriminate.
Defined.

Example outputFilename_5 :
  outputFilename track1of5 "source.mp3" = "Artist/Album/01 - Title.mp3".
Proof. reflexivity. Qed.

Example outputFilename_150 :
  outputFilename track1of150 "source.mp3" = "Artist/Album/001 - Title.mp3".
Proof. reflexivity. Qed.

(** ** The tag request *)

(** An integer printed with [%v]: an optional minus sign, then digits. *)
Lemma fmtInteger_bare (n : Z) :
  ∃ ds, fmtInteger n 0 = signOf n +:+ ds ∧
        allDigits ds = true ∧ decimalValue ds = Z.abs n.
Proof.
  unfold fmtInteger, signOf.
  destruct (fmtUint_spec (Z.abs n)) as (ds & Hds & Hall & Hval & _); [lia|].
  exists ds. split; [|done].
  destruct (Z.ltb_spec n 0).
  - unfold zeroPad. simpl. by rewrite Hds.
  - unfold zeroPad. simpl. rewrite <- Hds. by rewrite Z.abs_eq.
Qed.

(** C10. The tag tool receives seven arguments.  The four string fields
    each make one argument, the field name, an equals sign and the value
    between two double-quote bytes that are part of the argument; the track
    number and total are printed bare, as a decimal integer; the process
    receives the argument vector as it is, no shell reading it. *)
Theorem eyeD3Args_quoting (t : track) (audioFile : string) :
  eyeD3Args t audioFile
  = [ quoted "--artist" (Artist t);
      quoted "--album-artist" (Artist t);
      quoted "--album" (Album t);
      quoted "--title" (Title t);
      "--track=" +:+ fmtInteger (Number t) 0;
      "--track-total=" +:+ fmtInteger (Total t) 0;
      outputFilename t audioFile ] ∧
  (∃ ds, fmtInteger (Number t) 0 = signOf (Number t) +:+ ds ∧
         allDigits ds = true ∧ decimalValue ds = Z.abs (Number t)) ∧
  (∃ ds, fmtInteger (Total t) 0 = signOf (Total t) +:+ ds ∧
         allDigits ds = true ∧ decimalValue ds = Z.abs (Total t)) ∧
  (∀ (World : Type) (os : OS World) (s : state),
     ∃ w r, (execCommand os "eyed3" (eyeD3Args t audioFile) s).1
            = (w, s.2 ++ [EvCommand "eyed3" (eyeD3Args t audioFile) r])).
Proof.
  split; [|split; [apply fmtInteger_bare|split; [apply fmtInteger_bare|]]].
  - unfold eyeD3Args, quoted, quotedFmt, dquote.
    cbn [Sprintf fmtOperand head tail]. simpl_append.
    by rewrite !append_nil_r.
  - intros World os s. unfold execCommand.
    destruct (os_Command os s.1 "eyed3" (eyeD3Args t audioFile)) as [w r].
    exists w, r. by destruct r as [e|[|] stderr].
Qed.

Example eyeD3Args_demo :
  eyeD3Args track1of5 "source.mp3"
  = [ "--artist=" +:+ dquote +:+ "Artist" +:+ dquote;
      "--album-artist=" +:+ dquote +:+ "Artist" +:+ dquote;
      "--album=" +:+ dquote +:+ "Album" +:+ dquote;
      "--title=" +:+ dquote +:+ "Title" +:+ dquote;
      "--track=1"; "--track-total=5"; "Artist/Album/01 - Title.mp3" ].
Proof. reflexivity. Qed.

(** ** The cut request *)

(** The request for a [.flac] source asks for the [mp3] container. *)
Lemma ffmpegArgs_container_counterexample :
  ¬ spec_targetsImpliedContainer
      (ffmpegArgs track1of5 "song.flac") (filepath_Ext "song.flac").
Proof. vm_compute. discriminate. Qed.

(** C2 (amended). The cut request is: no input from the terminal,
    overwrite, errors only; the window, from the start of the track to its
    end when it has one ([-to]) and to the end of the stream otherwise (no
    [-to]); the source file; no video, stream copy ([-c copy]), the [mp3]
    container forced whatever the extension ([-f mp3]); the output file
    name, whose extension is a suffix of the source file name, copied as
    it is. *)
Theorem ffmpegArgs_shape (t : track) (audioFile : string) :
  ffmpegArgs t audioFile
  = ["-nostdin"; "-y"; "-loglevel"; "error"] ++ cutWindow t
    ++ ["-i"; audioFile; "-vn"; "-c"; "copy"; "-f"; "mp3";
        outputFilename t audioFile] ∧
  (End t = EmptyString → cutWindow t = ["-ss"; Start t]) ∧
  (End t ≠ EmptyString → cutWindow t = ["-ss"; Start t; "-to"; End t]) ∧
  ∃ stem,
    audioFile = stem +:+ filepath_Ext audioFile ∧
    outputFilename t audioFile
    = path_Join [Artist t; Album t;
                 fmtInteger (Number t) (padWidth t) +:+ " - " +:+ Title t
                 +:+ filepath_Ext audioFile].
Proof.
  split; [|split; [|split]].
  - unfold ffmpegArgs, cutWindow. cbn [Sprintf fmtOperand head tail].
    rewrite append_nil_r. by destruct (isEmpty (End t)).
  - intros Hend. unfold cutWindow. by rewrite Hend.
  - intros Hend. unfold cutWindow.
    by apply isEmpty_false in Hend as ->.
  - destruct (filepath_Ext_suffix audioFile) as [stem Hstem].
    exists stem. split; [exact Hstem|apply outputFilename_eq].
Qed.

Lemma ffmpegArgs_shape_witness :
  ffmpegArgs track1of5 "song.flac"
  = ["-nostdin"; "-y"; "-loglevel"; "error"; "-ss"; "00:00:00"; "-to";
     "00:03:15"; "-i"; "song.flac"; "-vn"; "-c"; "copy"; "-f"; "mp3";
     "Artist/Album/01 - Title.flac"].
Proof.
  destruct (ffmpegArgs_shape track1of5 "song.flac") as (Hargs & _ & Hwin & _).
  rewrite Hargs, Hwin; [reflexivity | discriminate].
Defined.

(** ** Trimming and splitting *)

Lemma allIn_app (s1 s2 cs : string) :
  allIn (s1 +:+ s2) cs = allIn s1 cs && allIn s2 cs.
Proof.
  induction s1 as [|c s1 IH]; simpl_append; simpl; [done|].
  by rewrite IH, andb_assoc.
Qed.

Lemma TrimRight_allIn (s cs : string) :
  allIn s cs = true → TrimRight s cs = EmptyString.
Proof.
  induction s as [|c s IH]; simpl; [done|].
  intros [Hc Hs]%andb_true_iff. by rewrite IH, Hc.
Qed.

Lemma TrimRight_spec (s cs : string) :
  ∃ r, s = TrimRight s cs +:+ r ∧ allIn r cs = true
       ∧ endsIn (TrimRight s cs) cs = false.
Proof.
  induction s as [|c s (r & Hs & Hr & Hend)]; simpl.
  - by exists EmptyString.
  - destruct (TrimRight s cs) as [|c' s'] eqn:Htrim.
    + destruct (byteIn c cs) eqn:Hc.
      * exists (String c s). simpl_append. simpl. rewrite Hc.
        rewrite Hs. by simpl_append.
      * exists r. simpl_append. rewrite Hs. by simpl_append.
    + exists r. split; [|done]. change (String c s = String c (String c' s' +:+ r)).
      by rewrite <- Hs.
Qed.

Lemma TrimLeft_spec (s cs : string) :
  ∃ l, s = l +:+ TrimLeft s cs ∧ allIn l cs = true
       ∧ startsIn (TrimLeft s cs) cs = false
       ∧ (endsIn s cs = false → endsIn (TrimLeft s cs) cs = false).
Proof.
  induction s as [|c s (l & Hs & Hl & Hstart & Hend)]; simpl.
  - by exists EmptyString.
  - destruct (byteIn c cs) eqn:Hc.
    + exists (String c l). simpl_append. simpl. rewrite Hc, <- Hs.
      repeat split; try done.
      destruct s; [done|]. apply Hend.
    + exists EmptyString. simpl. by rewrite Hc.
Qed.

(** [strings.Trim] removes a run of cutset bytes at each end and nothing
    else; what is left neither starts nor ends with a cutset byte. *)
Lemma Trim_spec (s cs : string) :
  ∃ l r, s = l +:+ Trim s cs +:+ r ∧
         allIn l cs = true ∧ allIn r cs = true ∧
         startsIn (Trim s cs) cs = false ∧ endsIn (Trim s cs) cs = false.
Proof.
  destruct (TrimRight_spec s cs) as (r & Hs & Hr & Hend).
  destruct (TrimLeft_spec (TrimRight s cs) cs) as (l & Hs' & Hl & Hstart & Hend').
  exists l, r. unfold Trim.
  rewrite <- append_assoc, <- Hs', <- Hs. repeat split; auto.
Qed.

Lemma Trim_empty (s cs : string) :
  Trim s cs = EmptyString ↔ allIn s cs = true.
Proof.
  split.
  - intros Htrim.
    destruct (Trim_spec s cs) as (l & r & Hs & Hl & Hr & _).
    rewrite Htrim in Hs. rewrite Hs, !allIn_app, Hl, Hr. done.
  - intros Hall. unfold Trim. by rewrite TrimRight_allIn.
Qed.

(** A string in which the byte [c] does not occur is its own trim. *)
Lemma TrimRight_absent (c : ascii) (s : string) :
  byteIn c s = false → TrimRight s (String c EmptyString) = s.
Proof.
  induction s as [|d s IH]; simpl; [done|].
  intros [Hd Hs]%orb_false_iff. rewrite (IH Hs).
  rewrite Ascii.eqb_sym, Hd. simpl. by destruct s.
Qed.

Lemma TrimLeft_absent (c : ascii) (s : string) :
  byteIn c s = false → TrimLeft s (String c EmptyString) = s.
Proof.
  destruct s as [|d s]; simpl; [done|].
  intros [Hd Hs]%orb_false_iff. by rewrite Ascii.eqb_sym, Hd.
Qed.

Lemma Trim_token (c : ascii) (before : string) :
  byteIn c before = false →
  Trim (before +:+ String c EmptyString) (String c EmptyString) = before.
Proof.
  intros Hb. unfold Trim.
  assert (TrimRight (before +:+ String c EmptyString) (String c EmptyString)
          = before) as ->; [|by apply TrimLeft_absent].
  induction before as [|d s IH]; simpl_append; simpl.
  - by rewrite Ascii.eqb_refl.
  - simpl in Hb. apply orb_false_iff in Hb as [Hd Hs].
    rewrite (IH Hs). rewrite Ascii.eqb_sym, Hd. simpl. by destruct s.
Qed.

Lemma cutAfter_Some (sep : ascii) (s a b : string) :
  cutAfter sep s = Some (a, b) ↔
  ∃ before, a = before +:+ String sep EmptyString ∧
            s = before +:+ String sep b ∧ byteIn sep before = false.
Proof.
  revert a. induction s as [|c s IH]; intros a; simpl.
  - split; [done|]. intros ([|d before] & _ & Hs & _); done.
  - destruct (Ascii.eqb_spec c sep) as [->|Hne].
    + split.
      * intros [= <- <-]. by exists EmptyString.
      * intros ([|d before] & -> & Hs & Hb).
        -- by injection Hs as ->.
        -- simpl in Hb. injection Hs as <- _.
           by rewrite Ascii.eqb_refl in Hb.
    + destruct (cutAfter sep s) as [[a' b']|] eqn:Hcut.
      * split.
        -- intros [= <- <-]. destruct (proj1 (IH a') eq_refl)
             as (before & -> & -> & Hb).
           exists (String c before). simpl_append. simpl.
           rewrite Hb, orb_false_r. repeat split.
           apply Ascii.eqb_neq. congruence.
        -- intros ([|d before] & -> & Hs & Hb).
           ++ injection Hs as -> _. done.
           ++ injection Hs as <- Hs. simpl in Hb.
              apply orb_false_iff in Hb as [_ Hb].
              assert (Some (a', b') = Some (before +:+ String sep EmptyString, b))
                as [= -> ->]; [|done].
              apply IH. by exists before.
      * split; [done|].
        intros ([|d before] & -> & Hs & Hb).
        -- injection Hs as -> _. done.
        -- injection Hs as <- Hs. simpl in Hb.
           apply orb_false_iff in Hb as [_ Hb].
           assert (None = Some (before +:+ String sep EmptyString, b)); [|done].
           apply IH. by exists before.
Qed.

Lemma cutAfter_None (sep : ascii) (s : string) :
  cutAfter sep s = None ↔ byteIn sep s = false.
Proof.
  induction s as [|c s IH]; simpl; [done|].
  rewrite (Ascii.eqb_sym sep c).
  destruct (Ascii.eqb c sep); simpl; [done|].
  rewrite <- IH. by destruct (cutAfter sep s) as [[??]|].
Qed.

(** A string that holds the byte splits at its first occurrence. *)
Lemma byteIn_split (sep : ascii) (s : string) :
  byteIn sep s = true →
  ∃ before after, s = before +:+ String sep after ∧ byteIn sep before = false.
Proof.
  intros Hin.
  destruct (cutAfter sep s) as [[a b]|] eqn:Hcut.
  - apply cutAfter_Some in Hcut as (before & _ & Hs & Hb). by exists before, b.
  - apply cutAfter_None in Hcut. congruence.
Qed.

(** ** The time of day *)

Lemma digitVal_bounds (c : ascii) : isDigit c = true → 0 ≤ digitVal c ≤ 9.
Proof.
  unfold isDigit, digitVal.
  intros [H1%Nat.leb_le H2%Nat.leb_le]%andb_true_iff. lia.
Qed.

Lemma getnum_fixed (s r : string) (n : Z) :
  getnum s true = Some (n, r) ↔
  ∃ c0 c1, s = String c0 (String c1 r) ∧ isDigit c0 = true ∧
           isDigit c1 = true ∧ n = digitVal c0 * 10 + digitVal c1.
Proof.
  unfold getnum. split.
  - destruct s as [|c0 [|c1 r1]]; try done.
    + by destruct (isDigit c0).
    + destruct (isDigit c0) eqn:H0; [|done].
      destruct (isDigit c1) eqn:H1; [|done].
      intros [= <- <-]. by exists c0, c1.
  - intros (c0 & c1 & -> & H0 & H1 & ->). by rewrite H0, H1.
Qed.

Lemma getnum_free (s r : string) (n : Z) :
  getnum s false = Some (n, r) ↔
  (∃ c0 c1, s = String c0 (String c1 r) ∧ isDigit c0 = true ∧
            isDigit c1 = true ∧ n = digitVal c0 * 10 + digitVal c1) ∨
  (∃ c0, s = String c0 r ∧ isDigit c0 = true ∧ n = digitVal c0 ∧
         startsIn r "0123456789" = false).
Proof.
  assert (Hstart : ∀ c, startsIn (String c EmptyString) "0123456789" = isDigit c).
  { intros c. destruct c as [[] [] [] [] [] [] [] []]; reflexivity. }
  assert (Hstart' : ∀ c r', startsIn (String c r') "0123456789" = isDigit c).
  { intros c r'. apply Hstart. }
  unfold getnum. split.
  - destruct s as [|c0 [|c1 r1]]; try done.
    + destruct (isDigit c0) eqn:H0; [|done].
      intros [= <- <-]. right. by exists c0.
    + destruct (isDigit c0) eqn:H0; [|done].
      destruct (isDigit c1) eqn:H1.
      * intros [= <- <-]. left. by exists c0, c1.
      * intros [= <- <-]. right. exists c0.
        repeat split; try done. by rewrite Hstart'.
  - intros [(c0 & c1 & -> & H0 & H1 & ->)|(c0 & -> & H0 & -> & Hr)].
    + by rewrite H0, H1.
    + rewrite H0. destruct r as [|c1 r1]; [done|].
      rewrite Hstart' in Hr. by rewrite Hr.
Qed.

Lemma skipColon_Some (v r : string) :
  skipColon v = Some r ↔ v = String ":" r.
Proof.
  unfold skipColon. split.
  - destruct v as [|c v]; [done|].
    destruct (Ascii.eqb_spec c ":") as [->|Hne].
    + by intros [= ->].
    + destruct c as [[] [] [] [] [] [] [] []]; done.
  - by intros ->.
Qed.

Lemma dropDigits_empty (s : string) : isEmpty (dropDigits s) = allDigits s.
Proof.
  induction s as [|c s IH]; simpl; [done|].
  by destruct (isDigit c).
Qed.

Lemma skipFraction_empty (v : string) :
  isEmpty (skipFraction v) = true ↔ fraction v.
Proof.
  unfold skipFraction, fraction. split.
  - destruct v as [|c0 [|c1 r]]; [by left|done|].
    destruct (commaOrPeriod c0) eqn:H0; [|done].
    destruct (isDigit c1) eqn:H1; [|done]. simpl.
    rewrite dropDigits_empty. intros Hr. right.
    exists c0, (String c1 r). simpl. by rewrite H1, Hr.
  - intros [->|(c & ds & -> & Hc & Hne & Hds)]; [done|].
    destruct ds as [|c1 r]; [done|]. simpl in Hds.
    apply andb_true_iff in Hds as [H1 Hr].
    by rewrite Hc, H1, <- dropDigits_empty in *.
Qed.

(** What [time.Parse] accepts, and the value it reads. *)
Lemma time_Parse_Some (value : string) :
  is_Some (time_Parse value) ↔ timeOfDaySyntax value.
Proof.
  unfold time_Parse, timeOfDaySyntax. split.
  - intros [[[hour min] sec] Hparse].
    destruct (getnum value false) as [[hour' v1]|] eqn:Hh; [|done].
    destruct (24 <=? hour') eqn:Hh24; [done|].
    destruct (skipColon v1) as [v2|] eqn:Hc1; [|done].
    destruct (getnum v2 true) as [[min' v3]|] eqn:Hm; [|done].
    destruct (60 <=? min') eqn:Hm60; [done|].
    destruct (skipColon v3) as [v4|] eqn:Hc2; [|done].
    destruct (getnum v4 true) as [[sec' v5]|] eqn:Hs; [|done].
    destruct (60 <=? sec') eqn:Hs60; [done|].
    destruct (isEmpty (skipFraction v5)) eqn:Hf; [|done].
    apply skipColon_Some in Hc1 as ->. apply skipColon_Some in Hc2 as ->.
    apply getnum_fixed in Hm as (m0 & m1 & -> & Hm0 & Hm1 & ->).
    apply getnum_fixed in Hs as (s0 & s1 & -> & Hs0 & Hs1 & ->).
    apply skipFraction_empty in Hf.
    apply Z.leb_gt in Hh24, Hm60, Hs60.
    apply getnum_free in Hh
      as [(h0 & h1 & -> & Hh0 & Hh1 & ->)|(h0 & -> & Hh0 & -> & _)].
    + exists (String h0 (String h1 EmptyString)),
        (String m0 (String m1 EmptyString)),
        (String s0 (String s1 EmptyString)), v5.
      split; [reflexivity|].
      split; [right; by exists h0, h1|].
      split; [by exists m0, m1|]. split; [by exists s0, s1|done].
    + exists (String h0 EmptyString),
        (String m0 (String m1 EmptyString)),
        (String s0 (String s1 EmptyString)), v5.
      split; [reflexivity|].
      split; [left; by exists h0|].
      split; [by exists m0, m1|]. split; [by exists s0, s1|done].
  - intros (h & m & sec & f & -> & Hh & (m0 & m1 & -> & Hm0 & Hm1 & Hm)
            & (s0 & s1 & -> & Hs0 & Hs1 & Hs) & Hf).
    apply skipFraction_empty in Hf.
    pose proof (digitVal_bounds m0 Hm0). pose proof (digitVal_bounds m1 Hm1).
    pose proof (digitVal_bounds s0 Hs0). pose proof (digitVal_bounds s1 Hs1).
    assert (Hm60 : (60 <=? digitVal m0 * 10 + digitVal m1) = false)
      by (apply Z.leb_gt; lia).
    assert (Hs60 : (60 <=? digitVal s0 * 10 + digitVal s1) = false)
      by (apply Z.leb_gt; lia).
    destruct Hh as [(h0 & -> & Hh0)|(h0 & h1 & -> & Hh0 & Hh1 & Hh)].
    + pose proof (digitVal_bounds h0 Hh0).
      assert (Hh24 : (24 <=? digitVal h0) = false) by (apply Z.leb_gt; lia).
      simpl_append. cbn -[digitVal Z.leb Z.mul Z.add isDigit].
      rewrite Hh0. change (isDigit ":") with false.
      repeat (cbn -[digitVal Z.leb Z.mul Z.add isDigit];
              rewrite ?Hh24, ?Hm0, ?Hm1, ?Hm60, ?Hs0, ?Hs1, ?Hs60, ?Hf).
      done.
    + assert (Hh24 : (24 <=? digitVal h0 * 10 + digitVal h1) = false)
        by (apply Z.leb_gt; lia).
      simpl_append.
      repeat (cbn -[digitVal Z.leb Z.mul Z.add isDigit];
              rewrite ?Hh0, ?Hh1, ?Hh24, ?Hm0, ?Hm1, ?Hm60, ?Hs0, ?Hs1, ?Hs60, ?Hf).
      done.
Qed.

Lemma parseTime_token (before : string) :
  byteIn " " before = false →
  parseTime (before +:+ " ") = bool_decide (is_Some (time_Parse before)).
Proof.
  intros Hb. unfold parseTime. rewrite Trim_token by done.
  destruct (time_Parse before); [by rewrite bool_decide_true|].
  rewrite bool_decide_false; [done|]. by intros [? ?].
Qed.

Lemma space_split (line : string) :
  byteIn " " line = true →
  ∃ before after, line = before +:+ " " +:+ after ∧ byteIn " " before = false.
Proof. apply byteIn_split. Qed.

(** ** One line of the timecode file *)

Lemma SplitAfterN_space (before after : string) :
  byteIn " " before = false →
  SplitAfterN (before +:+ " " +:+ after) " " 2 = [before +:+ " "; after].
Proof.
  intros Hb. cbn [SplitAfterN].
  assert (cutAfter " " (before +:+ " " +:+ after) = Some (before +:+ " ", after))
    as ->; [|done].
  apply cutAfter_Some. by exists before.
Qed.

Lemma SplitAfterN_nospace (line : string) :
  byteIn " " line = false → SplitAfterN line " " 2 = [line].
Proof.
  intros Hb. cbn [SplitAfterN]. by apply cutAfter_None in Hb as ->.
Qed.

Lemma append_space_nonempty (before after : string) :
  isEmpty (before +:+ " " +:+ after) = false.
Proof. by destruct before. Qed.

Lemma scanLine_space (before after : string) :
  byteIn " " before = false →
  scanLine (before +:+ " " +:+ after)
  = if parseTime (before +:+ " ")
    then Entry (before, Trim after " ")
    else Fail InvalidTimecode.
Proof.
  intros Hb. unfold scanLine.
  rewrite append_space_nonempty, SplitAfterN_space by done.
  by rewrite Trim_token.
Qed.

Lemma scanLine_nospace (line : string) :
  line ≠ EmptyString → byteIn " " line = false →
  scanLine line = Fail InvalidFormat.
Proof.
  intros Hne Hb. unfold scanLine.
  apply isEmpty_false in Hne as ->. by rewrite SplitAfterN_nospace.
Qed.

(** A one-digit hour is accepted although it is not of the form HH:MM:SS. *)
Lemma parseTime_counterexample :
  ¬ (parseTime "1:02:03" = true ↔
     spec_validHHMMSS (Trim "1:02:03" spec_whitespace) = true).
Proof. vm_compute. intros [H _]. by specialize (H eq_refl). Qed.

(** C6 (amended). A time token is accepted exactly when, its leading and
    trailing spaces removed, it is an hour of one or two digits below 24, a
    colon, a minute of two digits below 60, a colon, a second of two digits
    below 60, and possibly a fraction of a second (a comma or period and
    digits); a line whose token before the first space is anything else
    fails with the invalid-timecode error. *)
Theorem parseTime_accepts (t : string) :
  (parseTime t = true ↔ timeOfDaySyntax (Trim t " ")) ∧
  (∀ after, byteIn " " t = false → ¬ timeOfDaySyntax t →
            scanLine (t +:+ " " +:+ after) = Fail InvalidTimecode).
Proof.
  split.
  - unfold parseTime. rewrite <- time_Parse_Some.
    destruct (time_Parse (Trim t " ")); split; done.
  - intros after Hb Hsyntax. rewrite scanLine_space, parseTime_token by done.
    rewrite bool_decide_false; [done|]. by rewrite time_Parse_Some.
Qed.

Lemma parseTime_accepts_witness :
  scanLine "badtime Intro" = Fail InvalidTimecode.
Proof.
  apply (proj2 (parseTime_accepts "badtime") "Intro").
  - reflexivity.
  - intros Hsyntax. apply time_Parse_Some in Hsyntax.
    destruct Hsyntax as [? Hsyntax]. discriminate Hsyntax.
Defined.

(** A tab does not separate: the line is not split at all. *)
Lemma scanLine_tab_counterexample :
  spec_splitLine tabLine = ("00:00:00", "Intro") ∧
  ¬ (scanLine tabLine = Entry (spec_splitLine tabLine)).
Proof. split; [reflexivity|]. vm_compute. discriminate. Qed.

(** C7 (amended). A non-empty line without a space is not split and is
    rejected; any other line is split into exactly two parts after its first
    space byte (tabs and other whitespace do not separate): what is before
    the space is the time token, what is after it is the title, of which
    only the spaces at both ends are removed. *)
Theorem scanLine_split (line : string) :
  line ≠ EmptyString →
  (byteIn " " line = false ∧ SplitAfterN line " " 2 = [line] ∧
   scanLine line = Fail InvalidFormat) ∨
  (∃ before after,
     line = before +:+ " " +:+ after ∧ byteIn " " before = false ∧
     SplitAfterN line " " 2 = [before +:+ " "; after] ∧
     Trim (before +:+ " ") " " = before ∧
     scanLine line = (if parseTime (before +:+ " ")
                      then Entry (before, Trim after " ")
                      else Fail InvalidTimecode) ∧
     ∃ l r, after = l +:+ Trim after " " +:+ r ∧
            allIn l " " = true ∧ allIn r " " = true ∧
            startsIn (Trim after " ") " " = false ∧
            endsIn (Trim after " ") " " = false).
Proof.
  intros Hne. destruct (byteIn " " line) eqn:Hb.
  - right. destruct (byteIn_split _ _ Hb) as (before & after & -> & Hbefore).
    exists before, after. split; [done|]. split; [done|].
    split; [by apply SplitAfterN_space|].
    split; [by apply Trim_token|].
    split; [by apply scanLine_space|].
    apply Trim_spec.
  - left. split; [done|]. split; [by apply SplitAfterN_nospace|].
    by apply scanLine_nospace.
Qed.

Lemma scanLine_split_witness :
  ∃ before after,
    "00:03:15   Track  Two " = before +:+ " " +:+ after ∧
    byteIn " " before = false ∧
    scanLine "00:03:15   Track  Two "
    = (if parseTime (before +:+ " ")
       then Entry (before, Trim after " ")
       else Fail InvalidTimecode).
Proof.
  destruct (scanLine_split "00:03:15   Track  Two ")
    as [(Hb & _)|(before & after & Hline & Hb & _ & _ & Hscan & _)].
  - discriminate.
  - discriminate Hb.
  - exists before, after. split; [exact Hline|]. split; [exact Hb|exact Hscan].
Defined.

(** ** The whole timecode file *)

Lemma scanLine_Skip (line : string) :
  scanLine line = Skip ↔ line = EmptyString.
Proof.
  split; [|by intros ->].
  destruct (byteIn " " line) eqn:Hb.
  - destruct (space_split _ Hb) as (before & after & -> & Hbefore).
    rewrite scanLine_space by done. by destruct (parseTime _).
  - destruct line as [|c line]; [done|].
    by rewrite scanLine_nospace.
Qed.

Lemma scanLine_Entry (line : string) (tc : string * string) :
  scanLine line = Entry tc ↔ entryLine line tc.
Proof.
  unfold entryLine. split.
  - destruct (byteIn " " line) eqn:Hb.
    + destruct (space_split _ Hb) as (before & after & -> & Hbefore).
      rewrite scanLine_space, parseTime_token by done.
      case_bool_decide as Hparse; [|done].
      intros [= <-]. exists before, after. by rewrite <- time_Parse_Some.
    + destruct line as [|c line]; [done|].
      by rewrite scanLine_nospace.
  - intros (before & after & -> & Hb & Hsyntax & ->).
    rewrite scanLine_space, parseTime_token by done.
    by rewrite bool_decide_true by by apply time_Parse_Some.
Qed.


Lemma goodLine_scanLine (line : string) :
  goodLine line ↔ ∀ e, scanLine line ≠ Fail e.
Proof.
  unfold goodLine. split.
  - intros [->|[tc Htc%scanLine_Entry]] e; [done|by rewrite Htc].
  - intros Hok. destruct (scanLine line) as [|tc|e] eqn:Hscan.
    + left. by apply scanLine_Skip.
    + right. exists tc. by apply scanLine_Entry.
    + by destruct (Hok e).
Qed.


Lemma scanLoop_inr (lines : list string) (acc timecodes : list (string * string)) :
  scanLoop lines acc = inr timecodes ↔
  Forall goodLine lines ∧ timecodes = acc ++ omap entryOf lines.
Proof.
  revert acc. induction lines as [|line lines IH]; intros acc; simpl.
  - rewrite app_nil_r. split; [by intros [= <-]|by intros [_ ->]].
  - unfold entryOf. rewrite Forall_cons, goodLine_scanLine.
    destruct (scanLine line) as [|tc|e] eqn:Hscan.
    + rewrite IH. intuition congruence.
    + rewrite IH, <- app_assoc. simpl. intuition congruence.
    + split; [done|]. intros [[Hok _] _]. by destruct (Hok e).
Qed.


(** A line that does not fail makes an entry exactly when it is not empty. *)
Lemma entries_length (lines : list string) :
  Forall goodLine lines →
  length (omap entryOf lines) = length (nonEmpty lines).
Proof.
  unfold nonEmpty.
  induction lines as [|line lines IH]; [done|].
  intros [Hgood Hrest]%Forall_cons. simpl.
  rewrite filter_cons. unfold entryOf at 1.
  destruct Hgood as [->|[tc Htc%scanLine_Entry]].
  - simpl. by apply IH.
  - rewrite Htc.
    assert (isEmpty line = false) as Hne.
    { destruct line; [discriminate Htc|done]. }
    rewrite decide_True by done. simpl. f_equal. by apply IH.
Qed.




(** When the parser succeeds, and with what. *)
Lemma readTimecodes_inr (lines : list string) (timecodes : list (string * string)) :
  readTimecodes lines = inr timecodes ↔
  Forall goodLine lines ∧ timecodes = omap entryOf lines ∧
  (1 ≤ length timecodes ≤ 999)%nat.
Proof.
  unfold readTimecodes, len.
  destruct (scanLoop lines []) as [e|tcs] eqn:Hloop.
  - split; [done|]. intros (Hgood & -> & _).
    assert (scanLoop lines [] = inr (omap entryOf lines)) as Hok
      by by apply scanLoop_inr.
    congruence.
  - apply scanLoop_inr in Hloop as [Hgood ->]. simpl.
    destruct (Z.eqb_spec (Z.of_nat (length (omap entryOf lines))) 0) as [H0|H0].
    { split; [done|]. intros (_ & -> & ?). lia. }
    destruct (Z.ltb_spec 999 (Z.of_nat (length (omap entryOf lines)))) as [H999|H999].
    { split; [done|]. intros (_ & -> & ?). lia. }
    split.
    + intros [= <-]. repeat split; [done|lia..].
    + by intros (_ & -> & _).
Qed.



(** ** The scanner *)

Lemma length_string_of_list_ascii (l : list ascii) :
  String.length (string_of_list_ascii l) = length l.
Proof. induction l as [|c l IH]; simpl; congruence. Qed.

Lemma strlen_rev (cur : list ascii) :
  strlen (string_of_list_ascii (rev cur)) = len cur.
Proof.
  unfold strlen, len. by rewrite length_string_of_list_ascii, List.length_rev.
Qed.

Lemma lineText_rev (cur : list ascii) :
  lineText (string_of_list_ascii (rev cur))
  = string_of_list_ascii (rev (dropCR cur)).
Proof.
  unfold lineText. by rewrite list_ascii_of_string_of_list_ascii, rev_involutive.
Qed.

(** A line that has begun is a line of the file, with at least the bytes
    read so far. *)
Lemma fileLinesFrom_head (data : string) (cur : list ascii) :
  cur ≠ [] →
  ∃ line rest, fileLinesFrom cur data = line :: rest ∧ len cur ≤ strlen line.
Proof.
  revert cur. induction data as [|c r IH]; intros cur Hcur; cbn [fileLinesFrom].
  - destruct cur as [|a cur]; [done|].
    eexists _, _. split; [done|]. by rewrite strlen_rev.
  - destruct (Ascii.eqb c "010").
    + eexists _, _. split; [done|]. by rewrite strlen_rev.
    + destruct (IH (c :: cur)) as (line & rest & -> & Hlen); [done|].
      exists line, rest. split; [done|].
      unfold len in *. cbn [length] in Hlen. lia.
Qed.

Lemma scanLinesFrom_scanned (data : string) (cur : list ascii) :
  len cur < MaxScanTokenSize →
  scanLinesFrom cur (len cur) data = scanned (fileLinesFrom cur data).
Proof.
  revert cur. induction data as [|c r IH]; intros cur Hcur;
    cbn [scanLinesFrom fileLinesFrom].
  - destruct cur as [|a cur]; [done|]. cbn [scanned]. unfold tooLong.
    rewrite strlen_rev, (proj2 (Z.leb_gt _ _)) by done.
    by rewrite lineText_rev.
  - destruct (Ascii.eqb c "010").
    + cbn [scanned]. unfold tooLong.
      rewrite strlen_rev, (proj2 (Z.leb_gt _ _)) by done.
      rewrite lineText_rev. f_equal. by apply (IH []).
    + destruct (Z.leb_spec MaxScanTokenSize (len cur + 1)) as [Hfull|Hroom].
      * destruct (fileLinesFrom_head r (c :: cur)) as (line & rest & -> & Hlen);
          [done|].
        cbn [scanned]. unfold tooLong. rewrite (proj2 (Z.leb_le _ _)); [done|].
        unfold len in *. cbn [length] in Hlen. lia.
      * replace (len cur + 1) with (len (c :: cur))
          by (unfold len; cbn [length]; lia).
        apply IH. unfold len in *. cbn [length]. lia.
Qed.

(** The scanner delivers the texts of the lines of the file that come
    before the first line of [MaxScanTokenSize] bytes or more. *)
Lemma ScanLines_scanned (data : string) :
  ScanLines data = scanned (fileLines data).
Proof. by apply (scanLinesFrom_scanned data []). Qed.



(** ** When the parser fails *)




(** The second of three good lines has 65536 bytes and more: one line is
    read, and the parse succeeds with one entry. *)
Example ScanLines_long_line :
  tooLong longLine = true ∧
  ScanLines longFile = ["00:00:00 Intro"] ∧
  readTimecodes (ScanLines longFile) = inr [("00:00:00", "Intro")].
Proof. vm_compute. repeat split; reflexivity. Qed.

(** The cases the specification lists for the parser. *)
Example readTimecodes_1000 :
  readTimecodes (replicate 1000 "00:00:00 Title") = inl (TooManyTracks 1000) ∧
  errorText (TooManyTracks 1000) = Some "too many tracks: 1000".
Proof. split; vm_compute; reflexivity. Qed.

Example readTimecodes_999 :
  (length <$> readTimecodes_ok (replicate 999 "00:00:00 Title")) = Some 999%nat.
Proof. vm_compute. reflexivity. Qed.

Example readTimecodes_blank :
  readTimecodes [EmptyString; EmptyString] = inl NoTimecodesFound.
Proof. reflexivity. Qed.

Example readTimecodes_badtime :
  readTimecodes ["badtime Intro"] = inl InvalidTimecode.
Proof. reflexivity. Qed.

Example readTimecodes_one_token :
  readTimecodes ["00:00:00"] = inl InvalidFormat.
Proof. reflexivity. Qed.

(** An entry whose title is empty is accepted. *)
Lemma readTimecodes_title_counterexample :
  ¬ (∀ timecodes,
       readTimecodes ["00:00:00 "] = inr timecodes →
       Forall (λ tc, Trim tc.2 spec_whitespace ≠ EmptyString) timecodes).
Proof.
  intros Hclaim.
  specialize (Hclaim [("00:00:00", EmptyString)] eq_refl).
  apply Forall_cons in Hclaim as [Htitle _]. by apply Htitle.
Qed.

(** C8 (amended). Every entry of a successful parse comes from a line of
    the file: its time is the accepted token before the first space, its
    title what follows that space without the spaces at both ends, so the
    title neither starts nor ends with a space.  The title may be empty: it
    is exactly when nothing but spaces follows the first space. *)
Theorem readTimecodes_titles (lines : list string) (timecodes : list (string * string)) :
  readTimecodes lines = inr timecodes →
  ∀ tc, tc ∈ timecodes →
    ∃ before after,
      (before +:+ " " +:+ after) ∈ lines ∧ byteIn " " before = false ∧
      timeOfDaySyntax before ∧ tc = (before, Trim after " ") ∧
      (tc.2 = EmptyString ↔ allIn after " " = true) ∧
      startsIn tc.2 " " = false ∧ endsIn tc.2 " " = false.
Proof.
  intros (Hgood & -> & _)%readTimecodes_inr tc Htc.
  apply list_elem_of_omap in Htc as (line & Hin & Hentry).
  unfold entryOf in Hentry.
  destruct (scanLine line) as [|tc'|] eqn:Hscan; try done.
  injection Hentry as ->.
  apply scanLine_Entry in Hscan as (before & after & -> & Hb & Hsyntax & ->).
  exists before, after. simpl.
  destruct (Trim_spec after " ") as (l & r & _ & _ & _ & Hstart & Hend).
  repeat split; try done; apply Trim_empty.
Qed.

Lemma readTimecodes_titles_witness :
  ∃ before after,
    (before +:+ " " +:+ after) ∈ ["00:00:00 "] ∧
    ("00:00:00", EmptyString) = (before, Trim after " ").
Proof.
  destruct (readTimecodes_titles ["00:00:00 "] [("00:00:00", EmptyString)]
              eq_refl ("00:00:00", EmptyString))
    as (before & after & Hin & _ & _ & Htc & _).
  - apply elem_of_cons. by left.
  - exists before, after. split; [exact Hin|exact Htc].
Defined.

(** ** The run *)

Lemma commands_app (l1 l2 : list event) :
  commands (l1 ++ l2) = commands l1 ++ commands l2.
Proof. apply omap_app. Qed.

Lemma cutTagLog_prefix audioFile tracks cs res :
  cutTagLog audioFile tracks cs res →
  (fst <$> cs) `prefix_of` schedule audioFile tracks.
Proof.
  induction 1 as [|t more r e _|t more r1 r2 e _ _|t more r1 r2 cs res _ _ _ IH];
    unfold schedule; simpl.
  - done.
  - by apply prefix_cons, prefix_nil.
  - by apply prefix_cons, prefix_cons, prefix_nil.
  - by apply prefix_cons, prefix_cons.
Qed.

Lemma cutTagLog_failed_last audioFile tracks cs res i c e :
  cutTagLog audioFile tracks cs res →
  cs !! i = Some c → errorOf c.2 = Some e →
  S i = length cs ∧ res = Err e.
Proof.
  intros Hlog. revert i.
  induction Hlog as [|t more r e' Hr|t more r1 r2 e' Hr1 Hr2
                    |t more r1 r2 cs res Hr1 Hr2 _ IH]; intros i Hi Hc.
  - done.
  - destruct i as [|[|i]]; simplify_eq/=. done.
  - destruct i as [|[|[|i]]]; simplify_eq/=. done.
  - destruct i as [|[|i]]; simplify_eq/=.
    destruct (IH i Hi Hc) as [-> ->]. done.
Qed.

Lemma cutTagLog_Ok audioFile tracks cs :
  cutTagLog audioFile tracks cs (Ok tt) →
  fst <$> cs = schedule audioFile tracks.
Proof.
  remember (Ok tt) as res eqn:Hres. intros Hlog.
  induction Hlog as [| | |t more r1 r2 cs res _ _ _ IH]; try done.
  unfold schedule in *. simpl. f_equal. f_equal. by apply IH.
Qed.

Lemma cutTagLog_result audioFile tracks cs res :
  cutTagLog audioFile tracks cs res →
  match res with
  | Ok _ => True
  | Err e => isInputError e = false ∧ ∀ msg, e ≠ MkdirError msg
  | Panic => False
  end.
Proof.
  induction 1 as [|t more r e Hr|t more r1 r2 e _ Hr|]; try done.
  - destruct r as [|[|]]; simplify_eq/=; done.
  - destruct r2 as [|[|]]; simplify_eq/=; done.
Qed.

Section RunProperties.
Context {World : Type} (os : OS World).

Lemma processTracks_log (audioFile : string) (tracks : list track) (s : state) :
  ∃ w' new res,
    processTracks os audioFile tracks s = ((w', s.2 ++ new), res) ∧
    cutTagLog audioFile tracks (commands new) res ∧
    Forall (λ ev, ∀ dir err, ev ≠ EvMkdirAll dir err) new.
Proof.
  revert s. induction tracks as [|t more IH]; intros [w log].
  - exists w, [], (Ok tt). simpl. rewrite app_nil_r.
    repeat split; [constructor|done].
  - cbn [processTracks]. unfold mbind, M_bind, printf, execCommand. simpl.
    destruct (os_Command os w "ffmpeg" (ffmpegArgs t audioFile)) as [w1 r1].
    set (p := EvPrintf _).
    destruct (errorOf r1) as [e1|] eqn:Hr1.
    { exists w1, [p; EvCommand "ffmpeg" (ffmpegArgs t audioFile) r1], (Err e1).
      split; [|split].
      - rewrite <- app_assoc. simpl.
        destruct r1 as [|[|]]; simplify_eq/=; done.
      - by apply CutFails.
      - repeat constructor; done. }
    assert (∃ stderr, r1 = Exited true stderr) as [stderr1 ->].
    { destruct r1 as [|[|] stderr]; simplify_eq/=. by eexists. }
    simpl.
    destruct (os_Command os w1 "eyed3" (eyeD3Args t audioFile)) as [w2 r2].
    destruct (errorOf r2) as [e2|] eqn:Hr2.
    { exists w2, [p; EvCommand "ffmpeg" (ffmpegArgs t audioFile) (Exited true stderr1);
                  EvCommand "eyed3" (eyeD3Args t audioFile) r2], (Err e2).
      split; [|split].
      - rewrite <- !app_assoc. simpl.
        destruct r2 as [|[|]]; simplify_eq/=; done.
      - by apply TagFails.
      - repeat constructor; done. }
    assert (∃ stderr, r2 = Exited true stderr) as [stderr2 ->].
    { destruct r2 as [|[|] stderr]; simplify_eq/=. by eexists. }
    simpl.
    match goal with
    | |- context [processTracks os audioFile more ?s0] =>
        destruct (IH s0) as (w' & new & res & Hrun & Hlog & Hnew)
    end.
    exists w', ([p; EvCommand "ffmpeg" (ffmpegArgs t audioFile) (Exited true stderr1);
                 EvCommand "eyed3" (eyeD3Args t audioFile) (Exited true stderr2)]
                ++ new), res.
    split; [|split].
    + rewrite Hrun. simpl. by rewrite <- !app_assoc.
    + simpl. by apply NextTrack.
    + repeat constructor; done.
Qed.

Lemma run_cases (audioFile timecodesFile artist album : string) (w : World) :
  ∃ s res,
    run os audioFile timecodesFile artist album (w, []) = (s, res) ∧
    runCase os audioFile timecodesFile artist album w s res.
Proof.
  unfold run, mbind, M_bind, stat, open, mkdirAll, raise, panic. simpl.
  destruct (os_Stat os w audioFile) eqn:Haudio; simpl;
    [|eexists _, _; split; [done|by constructor]].
  destruct (os_Stat os w timecodesFile) eqn:Htimes; simpl;
    [|eexists _, _; split; [done|by constructor]].
  destruct (os_Open os w timecodesFile) as [data|] eqn:Hopen; simpl;
    [|eexists _, _; split; [done|by constructor]].
  destruct (readTimecodes (ScanLines data)) as [e|timecodes] eqn:Hread; simpl;
    [eexists _, _; split; [done|by econstructor]|].
  rewrite segment_eq.
  destruct (os_MkdirAll os w (path_Join [artist; album])) as [w1 [msg|]] eqn:Hmk;
    cbn -[path_Join]; rewrite Hmk; cbn -[path_Join].
  - eexists _, _. split; [done|].
    eapply MkdirFails with (data := data) (timecodes := timecodes);
      [exact Hopen|exact Hread|apply segment_eq|exact Hmk].
  - match goal with
    | |- context [processTracks os audioFile ?ts ?s0] =>
        destruct (processTracks_log audioFile ts s0)
          as (w' & new & res & Hrun & Hlog & Hnew)
    end.
    eexists _, _. split; [exact Hrun|]. simpl.
    eapply Processed with (data := data) (timecodes := timecodes);
      [exact Hopen|exact Hread|apply segment_eq|exact Hmk|exact Hlog|exact Hnew].
Qed.

End RunProperties.

Lemma segment_numbers (timecodes : list (string * string)) (artist album : string)
    (tracks : list track) (i : nat) (t : track) :
  segment timecodes artist album = Some tracks →
  tracks !! i = Some t → Number t = Z.of_nat i + 1.
Proof.
  rewrite segment_eq. intros [= <-] Ht.
  pose proof (lookup_lt_Some _ _ _ Ht) as Hi.
  rewrite tracksAfter_length in Hi.
  rewrite tracksAfter_lookup in Ht by done. by injection Ht as <-.
Qed.

(** C9. When [run] fails with an input, read or parse error (a file not
    found, the timecodes unreadable, a format error, a bad timecode, no
    timecodes, too many tracks), it has only looked at the two files and
    read the timecodes: the world is unchanged, no directory creation was
    attempted and no process was run. *)
Theorem run_validates_first {World : Type} (os : OS World)
    (audioFile timecodesFile artist album : string) (w w' : World)
    (log : list event) (e : error) :
  run os audioFile timecodesFile artist album (w, []) = ((w', log), Err e) →
  isInputError e = true →
  w' = w ∧ Forall isRead log ∧
  Forall (λ ev, ¬ isMkdir ev ∧ ¬ isCommand ev) log.
Proof.
  intros Hrun Hinput.
  destruct (run_cases os audioFile timecodesFile artist album w)
    as (s & res & Hrun' & Hcase).
  rewrite Hrun in Hrun'. injection Hrun' as <- <-.
  inversion Hcase as [| | | |lines tcs tracks w1 msg
                     |lines tcs tracks w1 w2 new res' ? ? ? ? Hlog]; subst.
  - repeat constructor; simpl; tauto.
  - repeat constructor; simpl; tauto.
  - repeat constructor; simpl; tauto.
  - repeat constructor; simpl; tauto.
  - done.
  - apply cutTagLog_result in Hlog as [Hlog _]. congruence.
Qed.

Lemma run_validates_first_witness :
  Forall isRead
    [EvStat "song.flac" true; EvStat "times.txt" true; EvOpen "times.txt" true].
Proof.
  refine (proj1 (proj2
    (run_validates_first
       (fakeOS [("song.flac", "fLaC"); ("times.txt", "00:00:00")] None)
       "song.flac" "times.txt" "A" "B" 0%nat 0%nat _ InvalidFormat _ _))).
  - reflexivity.
  - reflexivity.
Defined.

(** C5. The processes [run] starts are those of the tracks taken in order,
    numbered 1, 2, ..., for each track the cut and then the tag, and they
    stop at the first one that fails: a process that fails is the last one
    started and its error is the result of the run, so after a failed cut
    neither the tag of that track nor anything of a later track is
    attempted, and after a failed tag no later track is attempted.  A run
    that succeeds has started all of them. *)
Theorem run_sequential_abort {World : Type} (os : OS World)
    (audioFile timecodesFile artist album : string) (w w' : World)
    (log : list event) (res : result unit) :
  run os audioFile timecodesFile artist album (w, []) = ((w', log), res) →
  ∃ tracks : list track,
    ((tracks = [] ∧ commands log = [] ∧ ∃ e, res = Err e) ∨
     (∃ data timecodes,
        os_Open os w timecodesFile = Some data ∧
        readTimecodes (ScanLines data) = inr timecodes ∧
        segment timecodes artist album = Some tracks ∧
        cutTagLog audioFile tracks (commands log) res)) ∧
    (∀ i t, tracks !! i = Some t → Number t = Z.of_nat i + 1) ∧
    (fst <$> commands log) `prefix_of` schedule audioFile tracks ∧
    (∀ i c e, commands log !! i = Some c → errorOf c.2 = Some e →
              S i = length (commands log) ∧ res = Err e) ∧
    (res = Ok tt → fst <$> commands log = schedule audioFile tracks).
Proof.
  intros Hrun.
  destruct (run_cases os audioFile timecodesFile artist album w)
    as (s & res' & Hrun' & Hcase).
  rewrite Hrun in Hrun'. injection Hrun' as <- <-.
  inversion Hcase as [| | | |lines tcs tracks w1 msg
                     |lines tcs tracks w1 w2 new res' Hopen Hread Hseg Hmk Hlog];
    subst;
    try (exists []; split; [left; by eauto|];
         split; [done|]; split; [by apply prefix_nil|]; by split).
  exists tracks.
  change (commands (EvStat audioFile true :: EvStat timecodesFile true
                    :: EvOpen timecodesFile true
                    :: EvMkdirAll (path_Join [artist; album]) None :: new))
    with (commands new).
  split; [right; by exists lines, tcs|].
  split; [intros i t; by apply (segment_numbers tcs artist album)|].
  split; [by eapply cutTagLog_prefix|].
  split; [intros i c e; by eapply cutTagLog_failed_last|].
  intros ->. by eapply cutTagLog_Ok.
Qed.

(** The first cut fails: nothing else is started. *)
Lemma run_sequential_abort_witness :
  ∃ tracks : list track,
    (fst <$> commands
       [EvStat "song.flac" true; EvStat "times.txt" true;
        EvOpen "times.txt" true; EvMkdirAll "A/B" None;
        EvPrintf (Sprintf progressFmt [OpString "A/B/01 - Intro.flac"]);
        EvCommand "ffmpeg"
          ["-nostdin"; "-y"; "-loglevel"; "error"; "-ss"; "00:00:00"; "-to";
           "00:03:15"; "-i"; "song.flac"; "-vn"; "-c"; "copy"; "-f"; "mp3";
           "A/B/01 - Intro.flac"]
          (Exited false "boom")])
    `prefix_of` schedule "song.flac" tracks.
Proof.
  destruct (run_sequential_abort (fakeOS demoFiles (Some 0%nat))
              "song.flac" "times.txt" "A" "B" 0%nat 1%nat _ _ eq_refl)
    as (tracks & _ & _ & Hprefix & _).
  exists tracks. exact Hprefix.
Defined.

(** The round trip of the specification: two entries, the source
    [song.flac], artist [A] and album [B]. *)
Example run_round_trip :
  commands (run (fakeOS demoFiles None) "song.flac" "times.txt" "A" "B"
              (0%nat, [])).1.2
  = [ ("ffmpeg",
       ["-nostdin"; "-y"; "-loglevel"; "error"; "-ss"; "00:00:00"; "-to";
        "00:03:15"; "-i"; "song.flac"; "-vn"; "-c"; "copy"; "-f"; "mp3";
        "A/B/01 - Intro.flac"], Exited true EmptyString);
      ("eyed3",
       [quoted "--artist" "A"; quoted "--album-artist" "A";
        quoted "--album" "B"; quoted "--title" "Intro";
        "--track=1"; "--track-total=2"; "A/B/01 - Intro.flac"],
       Exited true EmptyString);
      ("ffmpeg",
       ["-nostdin"; "-y"; "-loglevel"; "error"; "-ss"; "00:03:15";
        "-i"; "song.flac"; "-vn"; "-c"; "copy"; "-f"; "mp3";
        "A/B/02 - Track Two.flac"], Exited true EmptyString);
      ("eyed3",
       [quoted "--artist" "A"; quoted "--album-artist" "A";
        quoted "--album" "B"; quoted "--title" "Track Two";
        "--track=2"; "--track-total=2"; "A/B/02 - Track Two.flac"],
       Exited true EmptyString) ].
Proof. reflexivity. Qed.


(** * Further properties *)

(** ** The parser keeps the order of the lines *)

Lemma entries_in_order (lines : list string) :
  Forall goodLine lines →
  Forall2 entryLine (nonEmpty lines) (omap entryOf lines).
Proof.
  unfold nonEmpty. induction lines as [|line lines IH]; [constructor|].
  intros [Hgood Hrest]%Forall_cons.
  rewrite filter_cons. cbn [omap list_omap]. unfold entryOf at 1.
  destruct Hgood as [->|[tc Htc]].
  - rewrite decide_False by done. cbn. by apply IH.
  - apply scanLine_Entry in Htc as Hscan. rewrite Hscan.
    assert (isEmpty line = false) as Hne.
    { destruct line; [discriminate Hscan|done]. }
    rewrite decide_True by done. constructor; [done|by apply IH].
Qed.

(** X1. The entries of a successful parse are those of the non-empty lines
    read, one for one and in the order of the file: the lines read are the
    lines of the file before its first line of 65536 bytes or more, and
    entry number i is made of line number i among the non-empty ones, the
    time being what precedes its first space and the title the trimmed
    rest. *)
Theorem readTimecodes_in_order (data : string)
    (timecodes : list (string * string)) :
  readTimecodes (ScanLines data) = inr timecodes →
  ScanLines data = scanned (fileLines data) ∧
  Forall2 entryLine (nonEmpty (scanned (fileLines data))) timecodes.
Proof.
  intros Hread. split; [apply ScanLines_scanned|].
  rewrite <- ScanLines_scanned.
  apply readTimecodes_inr in Hread as (Hgood & -> & _).
  by apply entries_in_order.
Qed.

Lemma readTimecodes_in_order_witness :
  Forall2 entryLine
    (nonEmpty (scanned (fileLines ("00:00:00 Intro" +:+ newline +:+ newline
                                   +:+ "00:03:15 Track Two" +:+ newline))))
    [("00:00:00", "Intro"); ("00:03:15", "Track Two")].
Proof.
  apply (readTimecodes_in_order
           ("00:00:00 Intro" +:+ newline +:+ newline
            +:+ "00:03:15 Track Two" +:+ newline)).
  vm_compute. reflexivity.
Defined.

(** ** The bytes of an accepted time *)

Lemma isDigit_alphabet (c : ascii) :
  isDigit c = true → byteIn c timeAlphabet = true ∧ byteIn c "0123456789" = true.
Proof. destruct c as [[] [] [] [] [] [] [] []]; by intros. Qed.

Lemma commaOrPeriod_alphabet (c : ascii) :
  commaOrPeriod c = true → byteIn c timeAlphabet = true.
Proof. destruct c as [[] [] [] [] [] [] [] []]; by intros. Qed.

Lemma allDigits_alphabet (s : string) :
  allDigits s = true → allIn s timeAlphabet = true.
Proof.
  induction s as [|c s IH]; cbn [allDigits allIn]; [done|].
  intros [Hc Hs]%andb_true_iff.
  rewrite IH by done. by destruct (isDigit_alphabet c Hc) as [-> _].
Qed.

Lemma twoDigit_alphabet (bound : Z) (s : string) :
  twoDigit bound s →
  allIn s timeAlphabet = true ∧ String.length s = 2%nat.
Proof.
  intros (c0 & c1 & -> & H0 & H1 & _). cbn [allIn].
  destruct (isDigit_alphabet c0 H0) as [-> _].
  by destruct (isDigit_alphabet c1 H1) as [-> _].
Qed.

Lemma timeOfDaySyntax_alphabet (s : string) :
  timeOfDaySyntax s →
  allIn s timeAlphabet = true ∧ startsIn s "0123456789" = true ∧
  (7 ≤ String.length s)%nat.
Proof.
  intros (h & m & sec & f & -> & Hh & Hm & Hsec & Hf).
  destruct (twoDigit_alphabet _ _ Hm) as [Hma Hml].
  destruct (twoDigit_alphabet _ _ Hsec) as [Hsa Hsl].
  assert (Hfa : allIn f timeAlphabet = true).
  { destruct Hf as [->|(c & ds & -> & Hc & _ & Hds)]; [done|].
    cbn [allIn]. by rewrite commaOrPeriod_alphabet, allDigits_alphabet. }
  assert (Hha : allIn h timeAlphabet = true ∧ startsIn h "0123456789" = true
                ∧ (1 ≤ String.length h)%nat ∧ h ≠ EmptyString).
  { destruct Hh as [(c0 & -> & H0)|(c0 & c1 & -> & H0 & H1 & _)].
    - cbn [allIn startsIn]. by destruct (isDigit_alphabet c0 H0) as [-> ->].
    - cbn [allIn startsIn]. destruct (isDigit_alphabet c0 H0) as [-> ->].
      destruct (isDigit_alphabet c1 H1) as [-> _]. repeat split; simpl; lia || done. }
  destruct Hha as (Hha & Hhs & Hhl & Hhne).
  repeat split.
  - rewrite !allIn_app, Hha, Hma, Hsa, Hfa. done.
  - destruct h as [|c0 h]; [done|]. simpl_append. exact Hhs.
  - rewrite !length_append, Hml, Hsl. simpl. lia.
Qed.

(** X2. Every time kept by a successful parse, hence every value the cut tool
    receives after [-ss] and [-to], is made of digits, colons, periods and
    commas only, starts with a digit (so it is never read as an option) and
    has at least seven bytes. *)
Theorem readTimecodes_time_bytes (lines : list string)
    (timecodes : list (string * string)) :
  readTimecodes lines = inr timecodes →
  Forall (λ tc, allIn tc.1 timeAlphabet = true ∧
                startsIn tc.1 "0123456789" = true ∧
                (7 ≤ String.length tc.1)%nat) timecodes.
Proof.
  intros Hread%readTimecodes_inr. destruct Hread as (Hgood & -> & _).
  apply Forall_forall. intros tc Htc.
  apply list_elem_of_omap in Htc as (line & _ & Hentry).
  unfold entryOf in Hentry.
  destruct (scanLine line) as [|tc'|] eqn:Hscan; try done.
  injection Hentry as ->.
  apply scanLine_Entry in Hscan as (before & after & _ & _ & Hsyntax & ->).
  by apply timeOfDaySyntax_alphabet.
Qed.

Lemma readTimecodes_time_bytes_witness :
  Forall (λ tc : string * string,
            allIn tc.1 timeAlphabet = true ∧
            startsIn tc.1 "0123456789" = true ∧
            (7 ≤ String.length tc.1)%nat)
    [("1:02:03,5", "One")].
Proof.
  apply (readTimecodes_time_bytes ["1:02:03,5  One"]).
  reflexivity.
Defined.

(** ** The invariant of the tracks *)

(** X3. The tracks made of a successfully parsed file all satisfy
    1 <= number <= total <= 999, the total being the number of entries. *)
Theorem tracks_invariant (lines : list string) (timecodes : list (string * string))
    (artist album : string) (tracks : list track) :
  readTimecodes lines = inr timecodes →
  segment timecodes artist album = Some tracks →
  Forall (trackInvariant (len timecodes)) tracks.
Proof.
  intros (_ & _ & Hlen)%readTimecodes_inr. rewrite segment_eq. intros [= <-].
  apply Forall_forall. intros t Ht.
  apply list_elem_of_lookup in Ht as [i Hi].
  pose proof (lookup_lt_Some _ _ _ Hi) as Hlt.
  rewrite tracksAfter_length in Hlt.
  rewrite tracksAfter_lookup in Hi by done. injection Hi as <-.
  unfold trackInvariant, len. simpl. unfold len. lia.
Qed.

Lemma tracks_invariant_witness :
  ∃ tracks,
    segment [("00:00:00", "Intro"); ("00:03:15", "Track Two")] "A" "B"
    = Some tracks ∧ Forall (trackInvariant 2) tracks.
Proof.
  eexists. split; [reflexivity|].
  apply (tracks_invariant ["00:00:00 Intro"; "00:03:15 Track Two"]
           [("00:00:00", "Intro"); ("00:03:15", "Track Two")] "A" "B");
    reflexivity.
Defined.

(** ** The order of the output files *)

Lemma Ascii_compare_refl (c : ascii) : Ascii.compare c c = Eq.
Proof. unfold Ascii.compare. apply N.compare_refl. Qed.

Lemma compare_app_prefix (p x y : string) :
  String.compare (p +:+ x) (p +:+ y) = String.compare x y.
Proof.
  induction p as [|c p IH]; simpl_append; [done|].
  cbn [String.compare]. by rewrite Ascii_compare_refl.
Qed.

Lemma digit_compare (c d : ascii) :
  Ascii.compare c d = Z.compare (digitVal c) (digitVal d).
Proof.
  unfold Ascii.compare, digitVal, nat_of_ascii.
  destruct (N.compare_spec (N_of_ascii c) (N_of_ascii d)) as [H|H|H]; symmetry.
  - apply Z.compare_eq_iff. rewrite H. lia.
  - apply Z.compare_lt_iff. lia.
  - apply Z.compare_gt_iff. lia.
Qed.

Lemma decimalFrom_bounds (acc : Z) (s : string) :
  allDigits s = true → 0 ≤ acc →
  acc * 10 ^ Z.of_nat (String.length s) ≤ decimalFrom acc s
  < (acc + 1) * 10 ^ Z.of_nat (String.length s).
Proof.
  revert acc. induction s as [|c s IH]; intros acc Hs Hacc.
  - simpl. lia.
  - cbn [allDigits] in Hs. apply andb_true_iff in Hs as [Hc Hs].
    pose proof (digitVal_bounds c Hc) as Hv.
    cbn [decimalFrom String.length].
    specialize (IH (acc * 10 + digitVal c) Hs ltac:(lia)).
    rewrite Nat2Z.inj_succ, Z.pow_succ_r by lia.
    assert (0 < 10 ^ Z.of_nat (String.length s)) by (apply Z.pow_pos_nonneg; lia).
    nia.
Qed.

(** Two strings of digits of the same length compare, byte by byte, as the
    numbers they denote, whatever follows them. *)
Lemma digits_compare (a b x y : string) (acc : Z) :
  String.length a = String.length b →
  allDigits a = true → allDigits b = true → 0 ≤ acc →
  decimalFrom acc a < decimalFrom acc b →
  String.compare (a +:+ x) (b +:+ y) = Lt.
Proof.
  revert b acc. induction a as [|c a IH]; intros [|d b] acc Hlen Ha Hb Hacc Hlt;
    try discriminate Hlen.
  - simpl in Hlt. lia.
  - cbn [allDigits] in Ha, Hb.
    apply andb_true_iff in Ha as [Hc Ha]. apply andb_true_iff in Hb as [Hd Hb].
    injection Hlen as Hlen. cbn [decimalFrom] in Hlt.
    pose proof (digitVal_bounds c Hc). pose proof (digitVal_bounds d Hd).
    simpl_append. cbn [String.compare]. rewrite digit_compare.
    destruct (Z.compare_spec (digitVal c) (digitVal d)) as [Heq|Hcd|Hcd].
    + rewrite Heq in Hlt. apply (IH b (acc * 10 + digitVal d)); [done..|lia|done].
    + done.
    + pose proof (decimalFrom_bounds (acc * 10 + digitVal c) a Ha ltac:(lia)) as Hca.
      pose proof (decimalFrom_bounds (acc * 10 + digitVal d) b Hb ltac:(lia)) as Hdb.
      rewrite Hlen in Hca.
      assert (0 < 10 ^ Z.of_nat (String.length b)) by (apply Z.pow_pos_nonneg; lia).
      nia.
Qed.

(** The number of digits the track number is printed with. *)
Lemma padded_length (n total : Z) :
  1 ≤ n ≤ total → total ≤ 999 →
  String.length (fmtInteger n (if 99 <? total then 3%nat else 2%nat))
  = if 99 <? total then 3%nat else 2%nat.
Proof.
  intros Hn Htotal.
  destruct (fmtInteger_digits n (if 99 <? total then 3%nat else 2%nat))
    as (_ & _ & ->); [lia|].
  rewrite fmtUint_length by lia.
  destruct (Z.ltb_spec 99 total).
  - destruct (n <? 10); [done|]. by destruct (n <? 100).
  - destruct (Z.ltb_spec n 10); [done|].
    assert ((n <? 100) = true) as -> by (apply Z.ltb_lt; lia). done.
Qed.

(** X4. The output files of one run sort, byte by byte, in the order of the
    track numbers: for two tracks of the same run (same plain artist and
    album, same total at most 999, titles without slash), the one with the
    smaller number has the smaller file name; in particular no two tracks
    write the same file. *)
Theorem outputFilename_sorted (t1 t2 : track) (audioFile : string) :
  Artist t1 = Artist t2 → Album t1 = Album t2 → Total t1 = Total t2 →
  plainName (Artist t1) → plainName (Album t1) →
  byteIn "/" (Title t1) = false → byteIn "/" (Title t2) = false →
  1 ≤ Number t1 < Number t2 → Number t2 ≤ Total t2 → Total t2 ≤ 999 →
  String.compare (outputFilename t1 audioFile) (outputFilename t2 audioFile) = Lt ∧
  outputFilename t1 audioFile ≠ outputFilename t2 audioFile.
Proof.
  intros Hartist Halbum Htotal Hpa Hpb Ht1 Ht2 Hn1 Hn2 H999.
  set (ext := filepath_Ext audioFile).
  set (num1 := fmtInteger (Number t1) (padWidth t1)).
  set (num2 := fmtInteger (Number t2) (padWidth t2)).
  destruct (fmtInteger_digits (Number t1) (padWidth t1)) as (Hall1 & Hval1 & _);
    [lia|].
  destruct (fmtInteger_digits (Number t2) (padWidth t2)) as (Hall2 & Hval2 & _);
    [lia|].
  pose proof (padded_length (Number t1) (Total t1) ltac:(lia) ltac:(lia)) as Hlen1.
  pose proof (padded_length (Number t2) (Total t2) ltac:(lia) ltac:(lia)) as Hlen2.
  fold (padWidth t1) in Hlen1. fold (padWidth t2) in Hlen2.
  fold num1 in Hall1, Hval1, Hlen1. fold num2 in Hall2, Hval2, Hlen2.
  assert (Hwidth : padWidth t1 = padWidth t2) by (unfold padWidth; by rewrite Htotal).
  assert (Hne1 : num1 ≠ EmptyString).
  { intros Hempty. rewrite Hempty in Hlen1. unfold padWidth in Hlen1.
    simpl in Hlen1. by destruct (99 <? Total t1). }
  assert (Hne2 : num2 ≠ EmptyString).
  { intros Hempty. rewrite Hempty in Hlen2. unfold padWidth in Hlen2.
    simpl in Hlen2. by destruct (99 <? Total t2). }
  assert (Hout1 : outputFilename t1 audioFile
                  = Artist t1 +:+ "/" +:+ Album t1 +:+ "/"
                    +:+ (num1 +:+ " - " +:+ Title t1 +:+ ext)).
  { rewrite outputFilename_eq. apply path_Join_plain; [done..|].
    apply fileName_plain; [done..|apply filepath_Ext_noslash]. }
  assert (Hout2 : outputFilename t2 audioFile
                  = Artist t1 +:+ "/" +:+ Album t1 +:+ "/"
                    +:+ (num2 +:+ " - " +:+ Title t2 +:+ ext)).
  { rewrite outputFilename_eq, Hartist, Halbum.
    rewrite Hartist in Hpa. rewrite Halbum in Hpb.
    apply path_Join_plain; [done..|].
    apply fileName_plain; [done..|apply filepath_Ext_noslash]. }
  assert (Hlt : String.compare (outputFilename t1 audioFile)
                               (outputFilename t2 audioFile) = Lt).
  { rewrite Hout1, Hout2, !compare_app_prefix.
    apply (digits_compare num1 num2 _ _ 0); try done; [congruence|].
    unfold decimalValue in *. lia. }
  split; [exact Hlt|].
  intros Heq. rewrite Heq in Hlt.
  assert (∀ s, String.compare s s = Eq) as Hrefl.
  { induction s as [|c s IH]; [done|].
    cbn [String.compare]. by rewrite Ascii_compare_refl. }
  by rewrite Hrefl in Hlt.
Qed.

Lemma outputFilename_sorted_witness :
  String.compare (outputFilename track1of5 "source.mp3")
                 (outputFilename track2of5 "source.mp3") = Lt.
Proof.
  refine (proj1 (outputFilename_sorted track1of5 track2of5 "source.mp3"
                   _ _ _ _ _ _ _ _ _ _)); simpl;
    try reflexivity; try lia; repeat split; discriminate.
Defined.

(** ** The output files lie in the directory that is created *)

Lemma path_Join_plain2 (a b : string) :
  plainName a → plainName b → path_Join [a; b] = a +:+ "/" +:+ b.
Proof.
  intros Ha Hb. unfold path_Join.
  pose proof Ha as (Hane & Haslash & _). pose proof Hb as (Hbne & Hbslash & _).
  rewrite !filter_cons, filter_nil.
  rewrite !decide_True by by apply isEmpty_false.
  cbn [joinSlash]. unfold path_Clean.
  assert (isEmpty (a +:+ "/" +:+ b) = false) as -> by by destruct a.
  assert (isRooted (a +:+ "/" +:+ b) = false) as ->.
  { destruct a as [|d a]; [done|]. cbn [byteIn] in Haslash.
    apply orb_false_iff in Haslash as [Hd _]. simpl_append.
    by rewrite isRooted_cons, Ascii.eqb_sym. }
  unfold elements.
  rewrite (elementsFrom_slash [] a) by done.
  rewrite (elementsFrom_last [] b) by done.
  cbn [rev string_of_list_ascii fold_left]. rewrite !append_nil_l.
  rewrite !cleanStep_plain by done.
  cbn [rev app joinSlash].
  by assert (isEmpty (a +:+ "/" +:+ b) = false) as -> by by destruct a.
Qed.

(** X5. For plain artist and album names and a title without slash, the output
    file lies directly in the directory [path.Join(artist, album)], the one
    [run] creates: its path is that directory, a slash and a non-empty name
    without slash. *)
Theorem outputFilename_in_directory (t : track) (audioFile : string) :
  plainName (Artist t) → plainName (Album t) →
  byteIn "/" (Title t) = false → 0 ≤ Number t →
  ∃ name,
    outputFilename t audioFile
    = path_Join [Artist t; Album t] +:+ "/" +:+ name ∧
    name ≠ EmptyString ∧ byteIn "/" name = false.
Proof.
  intros Hartist Halbum Htitle Hnum.
  destruct (fmtInteger_digits (Number t) (padWidth t)) as (Hall & _ & _); [done|].
  assert (Hne : fmtInteger (Number t) (padWidth t) ≠ EmptyString).
  { unfold fmtInteger.
    assert ((Number t <? 0) = false) as -> by (apply Z.ltb_ge; lia).
    destruct (fmtUint_spec (Number t) Hnum) as (ds & -> & _ & _ & Hds).
    unfold zeroPad. destruct (zeros _); [by rewrite append_nil_l|done]. }
  pose proof (fileName_plain _ (Title t) (filepath_Ext audioFile) Hall Hne Htitle
                (filepath_Ext_noslash audioFile)) as Hname.
  eexists. split; [|split; [apply Hname|apply Hname]].
  rewrite outputFilename_eq, path_Join_plain, path_Join_plain2 by done.
  by rewrite !append_assoc.
Qed.

Lemma outputFilename_in_directory_witness :
  ∃ name,
    outputFilename track1of5 "source.mp3" = "Artist/Album" +:+ "/" +:+ name ∧
    byteIn "/" name = false.
Proof.
  destruct (outputFilename_in_directory track1of5 "source.mp3")
    as (name & Hout & _ & Hslash).
  - repeat split; discriminate.
  - repeat split; discriminate.
  - reflexivity.
  - simpl. lia.
  - exists name. split; [exact Hout|exact Hslash].
Defined.

(** ** The requests of one track *)

Lemma ffmpegArgs_last (t : track) (audioFile : string) :
  last (ffmpegArgs t audioFile) = Some (outputFilename t audioFile).
Proof. unfold ffmpegArgs. by destruct (isEmpty (End t)). Qed.

Lemma eyeD3Args_last (t : track) (audioFile : string) :
  last (eyeD3Args t audioFile) = Some (outputFilename t audioFile).
Proof. reflexivity. Qed.

(** In the processes of the loop, taken two by two, the first is a cut that
    succeeded and the second a tag of the file the cut has written. *)
Lemma cutTagLog_pairs audioFile tracks cs res i c1 c2 :
  cutTagLog audioFile tracks cs res →
  cs !! (2 * i)%nat = Some c1 → cs !! (2 * i + 1)%nat = Some c2 →
  c1.1.1 = "ffmpeg" ∧ c2.1.1 = "eyed3" ∧ errorOf c1.2 = None ∧
  ∃ dest, last c1.1.2 = Some dest ∧ last c2.1.2 = Some dest.
Proof.
  intros Hlog. revert i.
  induction Hlog as [|t more r e Hr|t more r1 r2 e Hr1 Hr2
                    |t more r1 r2 cs res Hr1 Hr2 _ IH]; intros i H1 H2.
  - done.
  - destruct i as [|i]; [done|].
    replace (2 * S i)%nat with (S (S (2 * i))) in H1 by lia. done.
  - destruct i as [|i].
    + simpl in H1, H2. injection H1 as <-. injection H2 as <-.
      split; [done|]. split; [done|]. split; [exact Hr1|].
      exists (outputFilename t audioFile).
      split; [apply ffmpegArgs_last|apply eyeD3Args_last].
    + replace (2 * S i)%nat with (S (S (2 * i))) in H1 by lia. done.
  - destruct i as [|i].
    + simpl in H1, H2. injection H1 as <-. injection H2 as <-.
      split; [done|]. split; [done|]. split; [exact Hr1|].
      exists (outputFilename t audioFile).
      split; [apply ffmpegArgs_last|apply eyeD3Args_last].
    + replace (2 * S i)%nat with (S (S (2 * i))) in H1 by lia.
      replace (2 * S i + 1)%nat with (S (S (2 * i + 1))) in H2 by lia.
      by apply (IH i).
Qed.

Lemma cutTagLog_success audioFile tracks cs :
  cutTagLog audioFile tracks cs (Ok tt) →
  Forall (λ c, errorOf c.2 = None) cs ∧ length cs = (2 * length tracks)%nat.
Proof.
  remember (Ok tt) as res eqn:Hres. intros Hlog.
  induction Hlog as [| | |t more r1 r2 cs res Hr1 Hr2 _ IH]; try done.
  destruct (IH Hres) as [Hall Hlen].
  split; [by repeat constructor|]. simpl. lia.
Qed.

Section RunLog.
Context {World : Type} (os : OS World).

Lemma processTracks_loopLog (audioFile : string) (tracks : list track) (s : state) :
  ∃ new, (processTracks os audioFile tracks s).1.2 = s.2 ++ new ∧
         loopLog audioFile tracks new.
Proof.
  revert s. induction tracks as [|t more IH]; intros [w log].
  - exists []. simpl. rewrite app_nil_r. split; [done|constructor].
  - cbn [processTracks]. unfold mbind, M_bind, printf, execCommand.
    cbn [fst snd].
    change (EvPrintf (Sprintf progressFmt [OpString (outputFilename t audioFile)]))
      with (progress audioFile t).
    destruct (os_Command os w "ffmpeg" (ffmpegArgs t audioFile)) as [w1 r1].
    destruct (errorOf r1) as [e1|] eqn:Hr1.
    { eexists [_; _]. split; [|by eapply LoopCutFails].
      rewrite <- app_assoc. destruct r1 as [|[|]]; simplify_eq; reflexivity. }
    assert (∃ stderr, r1 = Exited true stderr) as [stderr1 ->].
    { destruct r1 as [|[|] stderr]; simplify_eq/=. by eexists. }
    cbn [fst snd].
    destruct (os_Command os w1 "eyed3" (eyeD3Args t audioFile)) as [w2 r2].
    destruct (errorOf r2) as [e2|] eqn:Hr2.
    { eexists [_; _; _]. split; [|by eapply LoopTagFails].
      rewrite <- !app_assoc. destruct r2 as [|[|]]; simplify_eq; reflexivity. }
    assert (∃ stderr, r2 = Exited true stderr) as [stderr2 ->].
    { destruct r2 as [|[|] stderr]; simplify_eq/=. by eexists. }
    cbn [fst snd].
    match goal with
    | |- context [processTracks os audioFile more ?s0] =>
        destruct (IH s0) as (new & Hrun & Hlog)
    end.
    exists (progress audioFile t
            :: EvCommand "ffmpeg" (ffmpegArgs t audioFile) (Exited true stderr1)
            :: EvCommand "eyed3" (eyeD3Args t audioFile) (Exited true stderr2)
            :: new).
    split; [|by apply LoopNext].
    rewrite Hrun. cbn [fst snd]. by rewrite <- !app_assoc.
Qed.

(** The log of a run: the reads only; or the reads and a directory that
    could not be made; or the reads, the directory, and the log of the loop
    over the tracks. *)
Lemma run_log (audioFile timecodesFile artist album : string) (w : World) :
  let log := (run os audioFile timecodesFile artist album (w, [])).1.2 in
  let reads := [EvStat audioFile true; EvStat timecodesFile true;
                EvOpen timecodesFile true] in
  Forall isRead log ∨
  (∃ msg, log = reads ++ [EvMkdirAll (path_Join [artist; album]) (Some msg)]) ∨
  ∃ timecodes new,
    log = reads ++ EvMkdirAll (path_Join [artist; album]) None :: new ∧
    loopLog audioFile (tracksAfter timecodes artist album (length timecodes)) new.
Proof.
  unfold run, mbind, M_bind, stat, open, mkdirAll, raise, panic. simpl.
  destruct (os_Stat os w audioFile); simpl;
    [|left; by repeat constructor].
  destruct (os_Stat os w timecodesFile); simpl;
    [|left; by repeat constructor].
  destruct (os_Open os w timecodesFile) as [data|]; simpl;
    [|left; by repeat constructor].
  destruct (readTimecodes (ScanLines data)) as [e|timecodes]; simpl;
    [left; by repeat constructor|].
  rewrite segment_eq.
  destruct (os_MkdirAll os w (path_Join [artist; album])) as [w1 [msg|]] eqn:Hmk;
    cbn -[path_Join]; rewrite Hmk; cbn -[path_Join].
  - right; left. by exists msg.
  - right; right. exists timecodes.
    match goal with
    | |- context [processTracks os audioFile ?ts ?s0] =>
        destruct (processTracks_loopLog audioFile ts s0) as (new & Hrun & Hlog)
    end.
    exists new. split; [|done].
    destruct (processTracks _ _ _ _) as [[w' log'] res]. exact Hrun.
Qed.

End RunLog.

(** ** The runs *)

Lemma loopLog_events audioFile tracks new :
  loopLog audioFile tracks new →
  Forall (λ ev, ¬ isRead ev ∧ ¬ isMkdir ev) new.
Proof.
  induction 1; repeat constructor; simpl; tauto || done.
Qed.

(** In the log of the loop every cut directly follows the progress line of
    the file it writes, and every progress line is directly followed by
    that cut. *)
Lemma loopLog_progress audioFile tracks new :
  loopLog audioFile tracks new →
  (∀ i arg r, new !! i = Some (EvCommand "ffmpeg" arg r) →
     ∃ j dest, i = S j ∧ last arg = Some dest ∧
               new !! j = Some (EvPrintf (progressLine dest))) ∧
  (∀ j text, new !! j = Some (EvPrintf text) →
     ∃ arg r dest, new !! S j = Some (EvCommand "ffmpeg" arg r) ∧
                   last arg = Some dest ∧ text = progressLine dest).
Proof.
  induction 1 as [|t more r e Hr|t more r1 r2 e Hr1 Hr2
                 |t more r1 r2 rest Hr1 Hr2 Hlog [IH1 IH2]].
  - split; intros; done.
  - split.
    + intros [|[|i]] arg r' Hi; unfold progress in *; simplify_eq/=.
      exists 0%nat, (outputFilename t audioFile).
      split; [reflexivity|]. split; [apply ffmpegArgs_last|reflexivity].
    + intros [|[|j]] text Hj; unfold progress in *; simplify_eq/=.
      eexists _, _, _. split; [reflexivity|]. split; [apply ffmpegArgs_last|reflexivity].
  - split.
    + intros [|[|[|i]]] arg r' Hi; unfold progress in *; simplify_eq/=.
      exists 0%nat, (outputFilename t audioFile).
      split; [reflexivity|]. split; [apply ffmpegArgs_last|reflexivity].
    + intros [|[|[|j]]] text Hj; unfold progress in *; simplify_eq/=.
      eexists _, _, _. split; [reflexivity|]. split; [apply ffmpegArgs_last|reflexivity].
  - split.
    + intros [|[|[|i]]] arg r' Hi; unfold progress in *; simplify_eq/=.
      * exists 0%nat, (outputFilename t audioFile).
        split; [reflexivity|]. split; [apply ffmpegArgs_last|reflexivity].
      * destruct (IH1 i arg r' Hi) as (j & dest & -> & Hdest & Hj).
        exists (S (S (S j))), dest. done.
    + intros [|[|[|j]]] text Hj; unfold progress in *; simplify_eq/=.
      * eexists _, _, _. split; [reflexivity|]. split; [apply ffmpegArgs_last|reflexivity].
      * destruct (IH2 j text Hj) as (arg & r' & dest & Hnext & Hdest & ->).
        by exists arg, r', dest.
Qed.

Lemma run_result_cases {World : Type} (os : OS World)
    (audioFile timecodesFile artist album : string) (w : World) :
  (run os audioFile timecodesFile artist album (w, [])).2 = Ok tt ∨
  ∃ e, (run os audioFile timecodesFile artist album (w, [])).2 = Err e.
Proof.
  destruct (run_cases os audioFile timecodesFile artist album w)
    as (s & res & -> & Hcase). simpl.
  inversion Hcase as [| | | |lines tcs tracks w1 msg
                     |lines tcs tracks w1 w2 new res' ? ? ? ? Hlog]; subst;
    try (right; by eexists).
  apply cutTagLog_result in Hlog.
  destruct res as [[]|e|]; [by left|right; by exists e|done].
Qed.

(** X7. [run] never panics: whatever the files hold and however the system and
    the tools answer, the three index expressions of the loop over the
    timecodes stay within range, and [run] returns nil or an error. *)
Theorem run_never_panics {World : Type} (os : OS World)
    (audioFile timecodesFile artist album : string) (w : World) :
  (run os audioFile timecodesFile artist album (w, [])).2 = Ok tt ∨
  ∃ e, (run os audioFile timecodesFile artist album (w, [])).2 = Err e.
Proof.
  destruct (run_cases os audioFile timecodesFile artist album w)
    as (s & res & -> & Hcase). simpl.
  inversion Hcase as [| | | |lines tcs tracks w1 msg
                     |lines tcs tracks w1 w2 new res' ? ? ? ? Hlog]; subst;
    try (right; by eexists).
  apply cutTagLog_result in Hlog.
  destruct res as [[]|e|]; [by left|right; by exists e|done].
Qed.

(** X8. The directory is made at most once, it is [path.Join(artist, album)],
    and only reads come before it; progress lines and processes come after
    it; when it cannot be made, nothing follows. *)
Theorem run_directory_first {World : Type} (os : OS World)
    (audioFile timecodesFile artist album : string) (w w' : World)
    (log : list event) (res : result unit) :
  run os audioFile timecodesFile artist album (w, []) = ((w', log), res) →
  Forall isRead log ∨
  ∃ pre err post,
    log = pre ++ EvMkdirAll (path_Join [artist; album]) err :: post ∧
    Forall isRead pre ∧
    Forall (λ ev, ¬ isRead ev ∧ ¬ isMkdir ev) post ∧
    (is_Some err → post = []).
Proof.
  intros Hrun.
  pose proof (run_log os audioFile timecodesFile artist album w) as Hlog.
  rewrite Hrun in Hlog. cbn [fst snd] in Hlog.
  destruct Hlog as [Hreads|[[msg ->]|(tcs & new & -> & Hloop)]].
  - by left.
  - right. eexists _, (Some msg), []. split; [reflexivity|].
    split; [by repeat constructor|]. by split.
  - right. eexists _, None, new. split; [reflexivity|].
    split; [by repeat constructor|].
    split; [by eapply loopLog_events|]. by intros [? ?].
Qed.

Lemma run_directory_first_witness :
  ∃ pre err post,
    demoLog = pre ++ EvMkdirAll (path_Join ["A"; "B"]) err :: post ∧
    Forall isRead pre.
Proof.
  assert (Hrun : run (fakeOS demoFiles None) "song.flac" "times.txt" "A" "B"
                   (0%nat, []) = ((4%nat, demoLog), Ok tt))
    by (vm_compute; reflexivity).
  destruct (run_directory_first _ _ _ _ _ _ _ _ _ Hrun)
    as [Hreads|(pre & err & post & Hlog & Hpre & _)].
  - exfalso.
    exact (proj1 (Forall_lookup _ _) Hreads 3%nat (EvMkdirAll "A/B" None) eq_refl).
  - exists pre, err, post. split; [exact Hlog|exact Hpre].
Defined.

(** X9. Every cut of a run directly follows the progress line that names the
    file it writes, and every progress line is directly followed by that
    cut: there are as many lines as cuts attempted. *)
Theorem run_progress_lines {World : Type} (os : OS World)
    (audioFile timecodesFile artist album : string) (w w' : World)
    (log : list event) (res : result unit) :
  run os audioFile timecodesFile artist album (w, []) = ((w', log), res) →
  (∀ i arg r, log !! i = Some (EvCommand "ffmpeg" arg r) →
     ∃ j dest, i = S j ∧ last arg = Some dest ∧
               log !! j = Some (EvPrintf (progressLine dest))) ∧
  (∀ j text, log !! j = Some (EvPrintf text) →
     ∃ arg r dest, log !! S j = Some (EvCommand "ffmpeg" arg r) ∧
                   last arg = Some dest ∧ text = progressLine dest).
Proof.
  intros Hrun.
  pose proof (run_log os audioFile timecodesFile artist album w) as Hlog.
  rewrite Hrun in Hlog. cbn [fst snd] in Hlog.
  destruct Hlog as [Hreads|[[msg ->]|(tcs & new & -> & Hloop)]].
  - rewrite Forall_lookup in Hreads.
    split; [intros i ? ? Hi|intros i ? Hi]; by destruct (Hreads _ _ Hi).
  - split.
    + intros [|[|[|[|i]]]] ? ? Hi; simplify_eq/=.
    + intros [|[|[|[|i]]]] ? Hi; simplify_eq/=.
  - destruct (loopLog_progress _ _ _ Hloop) as [H1 H2]. split.
    + intros [|[|[|[|i]]]] arg r Hi; simplify_eq/=.
      destruct (H1 i arg r Hi) as (j & dest & -> & Hdest & Hj).
      by exists (S (S (S (S j)))), dest.
    + intros [|[|[|[|j]]]] text Hj; simplify_eq/=.
      destruct (H2 j text Hj) as (arg & r & dest & Hnext & Hdest & ->).
      by exists arg, r, dest.
Qed.

Lemma run_progress_lines_witness :
  ∃ arg r dest,
    demoLog !! 5%nat = Some (EvCommand "ffmpeg" arg r) ∧
    last arg = Some dest ∧
    progressLine "A/B/01 - Intro.flac" = progressLine dest.
Proof.
  assert (Hrun : run (fakeOS demoFiles None) "song.flac" "times.txt" "A" "B"
                   (0%nat, []) = ((4%nat, demoLog), Ok tt))
    by (vm_compute; reflexivity).
  assert (Hline : demoLog !! 4%nat
                  = Some (EvPrintf (progressLine "A/B/01 - Intro.flac")))
    by (vm_compute; reflexivity).
  exact (proj2 (run_progress_lines _ _ _ _ _ _ _ _ _ Hrun) 4%nat _ Hline).
Defined.

(** X10. The processes of a run go two by two: a cut that succeeded, then the
    tag of the very file that cut has written. *)
Theorem run_tag_follows_cut {World : Type} (os : OS World)
    (audioFile timecodesFile artist album : string) (w w' : World)
    (log : list event) (res : result unit) (i : nat)
    (c1 c2 : string * list string * procResult) :
  run os audioFile timecodesFile artist album (w, []) = ((w', log), res) →
  commands log !! (2 * i)%nat = Some c1 →
  commands log !! (2 * i + 1)%nat = Some c2 →
  c1.1.1 = "ffmpeg" ∧ c2.1.1 = "eyed3" ∧ errorOf c1.2 = None ∧
  ∃ dest, last c1.1.2 = Some dest ∧ last c2.1.2 = Some dest.
Proof.
  intros Hrun H1 H2.
  destruct (run_cases os audioFile timecodesFile artist album w)
    as (s & res' & Hrun' & Hcase).
  rewrite Hrun in Hrun'. injection Hrun' as <- <-.
  inversion Hcase as [| | | |lines tcs tracks w1 msg
                     |lines tcs tracks w1 w2 new res' ? ? ? ? Hlog]; subst;
    try (by destruct i).
  by eapply cutTagLog_pairs.
Qed.

Lemma run_tag_follows_cut_witness :
  ∃ c1 c2 dest,
    commands demoLog !! 2%nat = Some c1 ∧ commands demoLog !! 3%nat = Some c2 ∧
    c1.1.1 = "ffmpeg" ∧ c2.1.1 = "eyed3" ∧
    last c1.1.2 = Some dest ∧ last c2.1.2 = Some dest.
Proof.
  assert (Hrun : run (fakeOS demoFiles None) "song.flac" "times.txt" "A" "B"
                   (0%nat, []) = ((4%nat, demoLog), Ok tt))
    by (vm_compute; reflexivity).
  destruct (commands demoLog !! 2%nat) as [c1|] eqn:H1;
    [|by vm_compute in H1].
  destruct (commands demoLog !! 3%nat) as [c2|] eqn:H2;
    [|by vm_compute in H2].
  destruct (run_tag_follows_cut _ _ _ _ _ _ _ _ _ 1%nat c1 c2 Hrun H1 H2)
    as (Hcut & Htag & _ & dest & Hlast1 & Hlast2).
  exists c1, c2, dest. repeat split; assumption.
Defined.

Lemma run_Ok_stat {World : Type} (os : OS World)
    (audioFile timecodesFile artist album : string) (w : World) (s : state) :
  run os audioFile timecodesFile artist album (w, []) = (s, Ok tt) →
  os_Stat os w audioFile = true ∧ os_Stat os w timecodesFile = true.
Proof.
  unfold run, mbind, M_bind, stat, raise. cbn [fst snd].
  destruct (os_Stat os w audioFile); cbn [negb fst snd]; [|discriminate].
  destruct (os_Stat os w timecodesFile); cbn [negb fst snd]; [done|discriminate].
Qed.

(** X11. A run that returns nil has found both files and has opened the
    timecodes file; with n the number of non-empty lines read from it, the
    lines read being the lines of the file before its first line of 65536
    bytes or more, all of them good, it has made n tracks and has run
    exactly 2n processes, the complete schedule, every one of which exited
    cleanly. *)
Theorem run_success_complete {World : Type} (os : OS World)
    (audioFile timecodesFile artist album : string) (w w' : World)
    (log : list event) :
  run os audioFile timecodesFile artist album (w, []) = ((w', log), Ok tt) →
  ∃ data timecodes tracks,
    os_Stat os w audioFile = true ∧ os_Stat os w timecodesFile = true ∧
    os_Open os w timecodesFile = Some data ∧
    readTimecodes (scanned (fileLines data)) = inr timecodes ∧
    segment timecodes artist album = Some tracks ∧
    length tracks = length (nonEmpty (scanned (fileLines data))) ∧
    fst <$> commands log = schedule audioFile tracks ∧
    Forall (λ c, errorOf c.2 = None) (commands log) ∧
    length (commands log)
    = (2 * length (nonEmpty (scanned (fileLines data))))%nat.
Proof.
  intros Hrun.
  destruct (run_Ok_stat os _ _ _ _ _ _ Hrun) as [Haudio Htimes].
  destruct (run_cases os audioFile timecodesFile artist album w)
    as (s & res' & Hrun' & Hcase).
  rewrite Hrun in Hrun'. injection Hrun' as <- <-.
  inversion Hcase as [| | | |
                     |data tcs tracks w1 w2 new res' Hopen Hread Hseg Hmk Hlog];
    subst.
  change (commands (_ :: _ :: _ :: _ :: new)) with (commands new).
  rewrite ScanLines_scanned in Hread.
  pose proof (cutTagLog_success _ _ _ Hlog) as [Hall Hlen].
  assert (Htracks : length tracks
                    = length (nonEmpty (scanned (fileLines data)))).
  { rewrite segment_eq in Hseg. injection Hseg as <-.
    rewrite tracksAfter_length.
    apply readTimecodes_inr in Hread as (Hgood & -> & _).
    by apply entries_length. }
  exists data, tcs, tracks.
  split; [done|]. split; [done|]. split; [done|]. split; [done|].
  split; [done|]. split; [done|].
  split; [by eapply cutTagLog_Ok|]. split; [done|]. lia.
Qed.

Lemma run_success_complete_witness :
  length (commands demoLog) = 4%nat.
Proof.
  assert (Hrun : run (fakeOS demoFiles None) "song.flac" "times.txt" "A" "B"
                   (0%nat, []) = ((4%nat, demoLog), Ok tt))
    by (vm_compute; reflexivity).
  destruct (run_success_complete _ _ _ _ _ _ _ _ Hrun)
    as (data & tcs & tracks & _ & _ & Hopen & _ & _ & _ & _ & _ & Hlen).
  vm_compute in Hopen. injection Hopen as <-. exact Hlen.
Defined.

(** The second of three good lines is too long: the run returns nil after
    the two processes of the first line. *)
Example run_long_line :
  let ran := run (fakeOS [("song.flac", "fLaC"); ("times.txt", longFile)] None)
               "song.flac" "times.txt" "A" "B" (0%nat, []) in
  ran.2 = Ok tt ∧ length (commands ran.1.2) = 2%nat.
Proof. vm_compute. split; reflexivity. Qed.

(** ** The entry point *)

Section MainProperties.
Context {World : Type} (os : OS World) (Errorf : string → string).

(** X12. [main] exits with status 0 or 1, never by a panic.  With a flag left
    empty it prints the usage and exits with 1 without any call to the
    system.  Otherwise it does what [run] does; the status is 0 exactly
    when [run] returns nil, and when [run] returns an error the last thing
    done is to print one line made of "error: ", the text of that error and
    a newline. *)
Theorem main_exit_status (filename timecodes artist album : string)
    (w w' : World) (mlog : list mainEvent) (code : Z) :
  main os Errorf filename timecodes artist album w = (w', mlog, code) →
  let flagsSet := filename ≠ EmptyString ∧ timecodes ≠ EmptyString ∧
                  artist ≠ EmptyString ∧ album ≠ EmptyString in
  let ran := run os filename timecodes artist album (w, []) in
  (code = 0 ∨ code = 1) ∧
  (¬ flagsSet → w' = w ∧ mlog = [EvUsage] ∧ code = 1) ∧
  (flagsSet →
     w' = ran.1.1 ∧
     (code = 0 ↔ ran.2 = Ok tt) ∧
     (ran.2 = Ok tt → mlog = EvRun <$> ran.1.2) ∧
     (∀ e, ran.2 = Err e →
           mlog = (EvRun <$> ran.1.2)
                  ++ [EvRun (EvPrintf ("error: " +:+ errorString Errorf e
                                       +:+ newline))])).
Proof.
  intros Hmain flagsSet ran. unfold main in Hmain.
  assert (Hflags : (isEmpty filename || isEmpty timecodes || isEmpty artist
                    || isEmpty album) = false ↔ flagsSet).
  { unfold flagsSet. rewrite !orb_false_iff, !isEmpty_false. tauto. }
  destruct (isEmpty filename || isEmpty timecodes || isEmpty artist
            || isEmpty album) eqn:Hempty.
  - injection Hmain as <- <- <-.
    split; [by right|]. split; [done|].
    intros Hset. apply Hflags in Hset. discriminate Hset.
  - assert (Hset : flagsSet) by by apply Hflags.
    pose proof (run_result_cases os filename timecodes artist album w) as Hres.
    fold ran in Hres, Hmain.
    destruct ran as [[w1 log] res]. cbn [fst snd] in *.
    destruct Hres as [->|[e ->]].
    + injection Hmain as <- <- <-.
      split; [by left|]. split; [done|]. intros _.
      split; [done|]. split; [done|]. split; [done|]. intros e' [=].
    + injection Hmain as <- <- <-.
      split; [by right|]. split; [done|]. intros _.
      split; [done|]. split; [split; [lia|intros [=]]|].
      split; [intros [=]|]. intros e' [= <-].
      simpl_append. reflexivity.
Qed.

End MainProperties.

Lemma main_exit_status_witness :
  (run (fakeOS demoFiles None) "song.flac" "times.txt" "A" "B" (0%nat, [])).2
  = Ok tt.
Proof.
  assert (Hmain : main (fakeOS demoFiles None) (λ s, s)
                    "song.flac" "times.txt" "A" "B" 0%nat
                  = (4%nat, EvRun <$> demoLog, 0))
    by (vm_compute; reflexivity).
  pose proof (main_exit_status _ _ _ _ _ _ _ _ _ _ Hmain) as Hexit.
  cbv zeta in Hexit. destruct Hexit as (_ & _ & Hset).
  destruct Hset as (_ & Hcode & _).
  - repeat split; discriminate.
  - apply Hcode. reflexivity.
Defined.

(** What [main] prints and returns for the errors of the first checks. *)
Example main_missing_flag :
  main (fakeOS demoFiles None) (λ s, s) "song.flac" "times.txt" EmptyString "B"
    0%nat
  = (0%nat, [EvUsage], 1).
Proof. vm_compute. reflexivity. Qed.

Example main_missing_file :
  main (fakeOS demoFiles None) (λ s, s) "nope.flac" "times.txt" "A" "B" 0%nat
  = (0%nat,
     [EvRun (EvStat "nope.flac" false);
      EvRun (EvPrintf ("error: audio file not found" +:+ newline))],
     1).
Proof. vm_compute. reflexivity. Qed.

Example main_failed_cut :
  main (fakeOS demoFiles (Some 0%nat)) (λ s, s) "song.flac" "times.txt" "A" "B"
    0%nat
  = (1%nat,
     EvRun <$> [EvStat "song.flac" true; EvStat "times.txt" true;
                EvOpen "times.txt" true; EvMkdirAll "A/B" None;
                EvPrintf (progressLine "A/B/01 - Intro.flac");
                EvCommand "ffmpeg" (ffmpegArgs
                  {| Number := 1; Total := 2; Title := "Intro";
                     Start := "00:00:00"; End := "00:03:15";
                     Artist := "A"; Album := "B" |} "song.flac")
                  (Exited false "boom");
                EvPrintf ("error: boom" +:+ newline)],
     1).
Proof. vm_compute. reflexivity. Qed.

(** ** The extension of the output file *)

Lemma list_ascii_of_string_app (s1 s2 : string) :
  list_ascii_of_string (s1 +:+ s2)
  = list_ascii_of_string s1 ++ list_ascii_of_string s2.
Proof.
  induction s1 as [|c s1 IH]; simpl_append; simpl; [done|by rewrite IH].
Qed.

(** The scan passes over bytes that are neither a dot nor a slash. *)
Lemma extScan_pass (rest : string) (more : list ascii) (suffix : string) :
  byteIn "." rest = false → byteIn "/" rest = false →
  extScan (rev (list_ascii_of_string rest) ++ more) suffix
  = extScan more (rest +:+ suffix).
Proof.
  revert more. induction rest as [|c rest IH]; intros more Hdot Hslash; [done|].
  cbn [byteIn] in Hdot, Hslash.
  apply orb_false_iff in Hdot as [Hc1 Hdot].
  apply orb_false_iff in Hslash as [Hc2 Hslash].
  cbn [list_ascii_of_string rev]. rewrite <- app_assoc.
  rewrite IH by done. cbn [app extScan].
  rewrite (Ascii.eqb_sym c "/"), Hc2, (Ascii.eqb_sym c "."), Hc1.
  by simpl_append.
Qed.

Lemma filepath_Ext_dot (stem rest : string) :
  byteIn "." rest = false → byteIn "/" rest = false →
  filepath_Ext (stem +:+ String "." rest) = String "." rest.
Proof.
  intros Hdot Hslash. unfold filepath_Ext.
  rewrite list_ascii_of_string_app. cbn [list_ascii_of_string].
  rewrite rev_app_distr. cbn [rev]. rewrite <- app_assoc.
  rewrite extScan_pass by done. cbn [app extScan].
  change (Ascii.eqb "." "/") with false. change (Ascii.eqb "." ".") with true.
  cbn iota. by rewrite append_nil_r.
Qed.

(** An extension is empty, or a dot followed by bytes that are neither a
    dot nor a slash. *)
Lemma extScan_shape (rpath : list ascii) (suffix : string) :
  byteIn "." suffix = false → byteIn "/" suffix = false →
  extScan rpath suffix = EmptyString ∨
  ∃ rest, extScan rpath suffix = String "." rest ∧
          byteIn "." rest = false ∧ byteIn "/" rest = false.
Proof.
  revert suffix.
  induction rpath as [|c more IH]; intros suffix Hdot Hslash; cbn [extScan];
    [by left|].
  destruct (Ascii.eqb c "/") eqn:Hc2; [by left|].
  destruct (Ascii.eqb_spec c ".") as [->|Hc1].
  - right. by exists suffix.
  - apply IH; cbn [byteIn]; apply orb_false_iff; split; try done.
    apply Ascii.eqb_neq. congruence.
Qed.

(** X6. When the source file has an extension, the output file has the same
    one (for plain artist and album names and a title without slash):
    taking the extension of the output path gives back that of the
    source. *)
Theorem outputFilename_keeps_extension (t : track) (audioFile : string) :
  plainName (Artist t) → plainName (Album t) →
  byteIn "/" (Title t) = false → 0 ≤ Number t →
  filepath_Ext audioFile ≠ EmptyString →
  filepath_Ext (outputFilename t audioFile) = filepath_Ext audioFile.
Proof.
  intros Hartist Halbum Htitle Hnum Hext.
  destruct (fmtInteger_digits (Number t) (padWidth t)) as (Hall & _ & _); [done|].
  assert (Hne : fmtInteger (Number t) (padWidth t) ≠ EmptyString).
  { unfold fmtInteger.
    assert ((Number t <? 0) = false) as -> by (apply Z.ltb_ge; lia).
    destruct (fmtUint_spec (Number t) Hnum) as (ds & -> & _ & _ & Hds).
    unfold zeroPad. destruct (zeros _); [by rewrite append_nil_l|done]. }
  pose proof (fileName_plain _ (Title t) (filepath_Ext audioFile) Hall Hne Htitle
                (filepath_Ext_noslash audioFile)) as Hname.
  assert (Hshape : filepath_Ext audioFile = EmptyString ∨
                   ∃ rest, filepath_Ext audioFile = String "." rest ∧
                           byteIn "." rest = false ∧ byteIn "/" rest = false)
    by by apply extScan_shape.
  destruct Hshape as [Hempty|(rest & Hrest & Hdot & Hslash)]; [done|].
  rewrite outputFilename_eq, path_Join_plain by done.
  rewrite Hrest, <- !append_assoc.
  by apply filepath_Ext_dot.
Qed.

Lemma outputFilename_keeps_extension_witness :
  filepath_Ext (outputFilename track1of5 "dir.d/source.mp3") = ".mp3".
Proof.
  rewrite (outputFilename_keeps_extension track1of5 "dir.d/source.mp3").
  - reflexivity.
  - repeat split; discriminate.
  - repeat split; discriminate.
  - reflexivity.
  - simpl. lia.
  - discriminate.
Defined.
